(** * REANA job controller: job table, reconcilers and manifest builder

    A shallow embedding of [reana_job_controller/app.py] and
    [reana_job_controller/k8s.py].  Python dictionaries are finite maps
    ([gmap string _]), Python exceptions are an explicit [Raise] outcome,
    and every call to the Kubernetes backend is appended to a trace kept
    next to the job table. *)

From Stdlib Require Import ZArith String Ascii List Decimal DecimalString DecimalNat.
From stdpp Require Import gmap strings list fin_maps.

Local Open Scope string_scope.
Set Warnings "-register-all".

(** ** Python values stored in the job table *)

(** JSON data as it arrives in a request body (numbers are integers
    here), plus the two kinds of pykube handles the controller stores in
    a record: the [Job] returned by [instantiate_job] and the [Pod]
    attached by [watch_pods]. *)
Inductive pyval : Type :=
| VNone
| VBool (b : bool)
| VInt (z : Z)
| VStr (s : string)
| VList (l : list pyval)
| VDict (d : gmap string pyval)
| VJob (name : string)
| VPod (name : string).

(** Python truth value testing: [None], [False], zero and the empty
    containers are false; handles are ordinary objects, hence true. *)
Definition truthy (x : pyval) : bool :=
  match x with
  | VNone => false
  | VBool b => b
  | VInt z => negb (z =? 0)%Z
  | VStr s => negb (String.eqb s "")
  | VList l => match l with [] => false | _ => true end
  | VDict d => negb (bool_decide (d = ∅))
  | VJob _ => true
  | VPod _ => true
  end.

(** [d.get(k)] followed by a truth test: a missing key yields [None]. *)
Definition get_truthy (r : gmap string pyval) (k : string) : bool :=
  match r !! k with
  | Some x => truthy x
  | None => false
  end.

(** [x != s] for a string literal [s]. *)
Definition py_ne_str (x : pyval) (s : string) : bool :=
  match x with
  | VStr t => negb (String.eqb t s)
  | _ => true
  end.

(** The interpreter line: the sources run on both (no version is pinned
    in them) and ordering comparisons against [None] differ. *)
Inductive python := Py2 | Py3.

(** ** Exceptions, backend calls and the controller monad *)

Inductive exn :=
| KeyError
| IndexError
| TypeError
| AttributeError
| HTTPAbort (code : nat).

Inductive outcome (A : Type) : Type :=
| Ok (a : A)
| Raise (e : exn).
Arguments Ok {A} a.
Arguments Raise {A} e.

(** Calls issued to the cluster backend through pykube handles.
    [JobExists] records the answer received. *)
Inductive backend_call :=
| JobDelete (name : string)
| JobExists (name : string) (answer : bool)
| PodDelete (name : string)
| PodLogs (name : string).

Record world := World {
  job_db : gmap string (gmap string pyval);
  calls : list backend_call
}.

(** Mutations performed before an exception is raised stay in place, so
    a computation returns its outcome together with the world it left. *)
Definition M (A : Type) : Type := world -> outcome A * world.

Definition ret {A} (a : A) : M A := fun w => (Ok a, w).
Definition raise {A} (e : exn) : M A := fun w => (Raise e, w).
Definition bind {A B} (m : M A) (f : A -> M B) : M B :=
  fun w => match m w with
           | (Ok a, w') => f a w'
           | (Raise e, w') => (Raise e, w')
           end.

Notation "'do' x <- m ; k" := (bind m (fun x => k))
  (at level 10, x name, m at level 100, k at level 200).
Notation "'run' m ; k" := (bind m (fun _ => k))
  (at level 10, m at level 100, k at level 200).

(** [try: body except KeyError: pass]. *)
Definition try_except_KeyError (body : M unit) : M unit :=
  fun w => match body w with
           | (Raise KeyError, w') => (Ok tt, w')
           | r => r
           end.

Definition lift {A} (o : outcome A) : M A := fun w => (o, w).

(** [job_db[name]] *)
Definition db_item (name : string) : M (gmap string pyval) :=
  fun w => match job_db w !! name with
           | Some r => (Ok r, w)
           | None => (Raise KeyError, w)
           end.

(** [job_db[name][key]] *)
Definition db_field (name key : string) : M pyval :=
  do r <- db_item name;
  match r !! key with
  | Some x => ret x
  | None => raise KeyError
  end.

(** [job_db[name].get(key)] with its truth value. *)
Definition db_get_truthy (name key : string) : M bool :=
  do r <- db_item name; ret (get_truthy r key).

(** [job_db[name][key] = x] *)
Definition db_set (name key : string) (x : pyval) : M unit :=
  fun w => match job_db w !! name with
           | Some r => (Ok tt, World (<[name := <[key := x]> r]> (job_db w)) (calls w))
           | None => (Raise KeyError, w)
           end.

(** [name in job_db] *)
Definition db_mem (name : string) : M bool :=
  fun w => (Ok (bool_decide (is_Some (job_db w !! name))), w).

Definition backend (c : backend_call) : M unit :=
  fun w => (Ok tt, World (job_db w) (calls w ++ [c])).

(** [x.delete()] on a stored value: only pykube handles have the method. *)
Definition delete_method (x : pyval) : M unit :=
  match x with
  | VJob n => backend (JobDelete n)
  | VPod n => backend (PodDelete n)
  | _ => raise AttributeError
  end.

(** [[j for j in job_db.keys() if cond(job_db[j])]]: the condition may
    raise on a record that lacks a key, which aborts the comprehension. *)
Fixpoint comprehension (cond : gmap string pyval -> outcome bool)
    (items : list (string * gmap string pyval)) : outcome (list string) :=
  match items with
  | [] => Ok []
  | (j, r) :: rest =>
      match cond r with
      | Raise e => Raise e
      | Ok b =>
          match comprehension cond rest with
          | Raise e => Raise e
          | Ok js => Ok (if b then j :: js else js)
          end
      end
  end.

Definition unended_jobs (cond : gmap string pyval -> outcome bool) : M (list string) :=
  fun w => (comprehension cond (map_to_list (job_db w)), w).

(** ** Pod name correlation *)

(** [s.split(c)] for a one-character separator: never the empty list. *)
Fixpoint split (c : ascii) (s : string) : list string :=
  match s with
  | EmptyString => [""]
  | String a s' =>
      if Ascii.eqb a c then "" :: split c s'
      else match split c s' with
           | x :: xs => String a x :: xs
           | [] => [String a ""]
           end
  end.

(** [sep.join(l)] *)
Fixpoint join (sep : string) (l : list string) : string :=
  match l with
  | [] => ""
  | [x] => x
  | x :: xs => x ++ sep ++ join sep xs
  end.

(** ['-'.join(pod.name.split('-')[:-1])] *)
Definition job_name_of_pod (pod_name : string) : string :=
  join "-" (removelast (split "-"%char pod_name)).

Example job_name_of_pod_uuid :
  job_name_of_pod "1612a779-f3fa-4344-8819-3d12fa9b9d90-x7k2p"
  = "1612a779-f3fa-4344-8819-3d12fa9b9d90".
Proof. reflexivity. Qed.

Example job_name_of_pod_no_dash : job_name_of_pod "busybox" = "".
Proof. reflexivity. Qed.

Example job_name_of_pod_trailing_dash : job_name_of_pod "job-" = "job".
Proof. reflexivity. Qed.

(** ** Pod events ([watch_pods]) *)

(** [pod.obj] as far as [watch_pods] reads it.  A key the API server
    left out is [None]; [restartCount] and [exitCode] are the int32
    fields of the Kubernetes container status. *)
Record terminated_state := { exitCode : option Z }.
Record container_state := { terminated : option terminated_state }.
Record container_status := {
  restartCount : option Z;
  state : option container_state
}.
Record pod_status := { containerStatuses : option (list container_status) }.

(** The pykube [Pod] carried by an event: its name, [pod.obj['status']]
    and the text [pod.logs()] would return. *)
Record pod := {
  pod_name : string;
  pod_obj_status : option pod_status;
  pod_logs : string
}.

(** [pod.obj['status']['containerStatuses'][0]] *)
Definition first_container_status (p : pod) : outcome container_status :=
  match pod_obj_status p with
  | None => Raise KeyError
  | Some st =>
      match containerStatuses st with
      | None => Raise KeyError
      | Some [] => Raise IndexError
      | Some (c :: _) => Ok c
      end
  end.

(** [...[0]['restartCount']] *)
Definition read_restarts (p : pod) : outcome Z :=
  match first_container_status p with
  | Raise e => Raise e
  | Ok c => match restartCount c with
            | None => Raise KeyError
            | Some n => Ok n
            end
  end.

(** [...[0]['state'].get('terminated', {}).get('exitCode')] *)
Definition read_exit_code (p : pod) : outcome (option Z) :=
  match first_container_status p with
  | Raise e => Raise e
  | Ok c => match state c with
            | None => Raise KeyError
            | Some s => match terminated s with
                        | None => Ok None
                        | Some t => Ok (exitCode t)
                        end
            end
  end.

(** [restarts >= x] for an int [restarts] and a stored value [x].
    Python 3 refuses to order an int against a non-number; Python 2
    orders [None] below every number and numbers below everything else. *)
Definition int_ge (v : python) (restarts : Z) (x : pyval) : outcome bool :=
  match x with
  | VInt m => Ok (m <=? restarts)%Z
  | VBool b => Ok ((if b then 1 else 0) <=? restarts)%Z
  | VNone => match v with Py2 => Ok true | Py3 => Raise TypeError end
  | _ => match v with Py2 => Ok false | Py3 => Raise TypeError end
  end.

(** [exit_code > 0] where [exit_code] is an int or [None]. *)
Definition exit_code_gt_0 (v : python) (exit_code : option Z) : outcome bool :=
  match exit_code with
  | Some z => Ok (0 <? z)%Z
  | None => match v with Py2 => Ok false | Py3 => Raise TypeError end
  end.

(** The record filter of [watch_pods]:
    [not job_db[j]['deleted'] and job_db[j]['status'] != 'failed']. *)
Definition unended_for_pods (r : gmap string pyval) : outcome bool :=
  match r !! "deleted" with
  | None => Raise KeyError
  | Some d =>
      if truthy d then Ok false
      else match r !! "status" with
           | None => Raise KeyError
           | Some s => Ok (py_ne_str s "failed")
           end
  end.

(** The body of the [try] block of [watch_pods]. *)
Definition take_note (v : python) (p : pod) (job_name : string) : M unit :=
  do restarts <- lift (read_restarts p);
  do exit_code <- lift (read_exit_code p);
  run db_set job_name "restart_count" (VInt restarts);
  do max_restart_count <- db_field job_name "max_restart_count";
  do reached <- lift (int_ge v restarts max_restart_count);
  do escalate <- (if reached then lift (exit_code_gt_0 v exit_code) else ret false);
  if escalate then
    run backend (PodLogs (pod_name p));
    run db_set job_name "log" (VStr (pod_logs p));
    run db_set job_name "status" (VStr "failed");
    do obj <- db_field job_name "obj";
    delete_method obj
  else ret tt.

(** [if job_name in job_db and not job_db[job_name].get('pod'):
        job_db[job_name]['pod'] = pod] *)
Definition store_pod (p : pod) (job_name : string) : M unit :=
  do known <- db_mem job_name;
  do no_pod <- (if known
                then do has <- db_get_truthy job_name "pod"; ret (negb has)
                else ret false);
  if no_pod then db_set job_name "pod" (VPod (pod_name p)) else ret tt.

(** One iteration of [for event in stream] in [watch_pods]. *)
Definition watch_pods_event (v : python) (p : pod) : M unit :=
  do unended <- unended_jobs unended_for_pods;
  let job_name := job_name_of_pod (pod_name p) in
  run store_pod p job_name;
  if bool_decide (job_name ∈ unended)
  then try_except_KeyError (take_note v p job_name)
  else ret tt.

(** ** Workload events ([watch_jobs]) *)

(** [job.obj['status']] of a pykube [Job]: the int32 counters
    [succeeded] and [failed], each possibly absent. *)
Record job_status := { succeeded : option Z; failed : option Z }.

(** A workload event: [event.type] and [event.object].  The [failed]
    branch subscripts the handle itself ([job['metadata']['name']], not
    [job.obj[...]]); pykube is not part of the sources, so whether its
    handles accept a subscript is carried as [job_subscriptable]. *)
Record job_event := {
  event_type : string;
  job_name : string;
  job_obj_status : option job_status;
  job_subscriptable : bool
}.

(** [job['metadata']['name']] *)
Definition job_item_name (e : job_event) : outcome string :=
  if job_subscriptable e then Ok (job_name e) else Raise TypeError.

(** The record filter of [watch_jobs]: [not job_db[j]['deleted']]. *)
Definition unended_for_jobs (r : gmap string pyval) : outcome bool :=
  match r !! "deleted" with
  | None => Raise KeyError
  | Some d => Ok (negb (truthy d))
  end.

(** [job.obj['status'].get(k)] with its truth value. *)
Definition status_get_truthy (e : job_event) (k : job_status -> option Z) : outcome bool :=
  match job_obj_status e with
  | None => Raise KeyError
  | Some st => match k st with
               | Some z => Ok (negb (z =? 0)%Z)
               | None => Ok false
               end
  end.

(** Where the [watch_jobs] thread stands: between two events, polling
    for the pod reference ([while not job_db[job.name].get('pod')]),
    polling [job.exists()], inside the call [pod.delete()] that precedes
    the assignment of ['deleted'], or terminated by an uncaught
    exception. *)
Inductive jobs_pc :=
| JIdle
| JWaitPod (name : string)
| JWaitGone (name : string)
| JDeletingPod (name : string)
| JDead (e : exn).

(** Dispatch of one workload event, up to the entry of the first
    polling loop of the [DELETED] branch. *)
Definition watch_jobs_event (e : job_event) : M jobs_pc :=
  do unended <- unended_jobs unended_for_jobs;
  let active := bool_decide (job_name e ∈ unended) in
  if active && String.eqb (event_type e) "DELETED" then
    ret (JWaitPod (job_name e))
  else
    do succ <- (if active then lift (status_get_truthy e succeeded) else ret false);
    if succ then
      run db_set (job_name e) "status" (VStr "succeeded");
      run backend (JobDelete (job_name e));
      ret JIdle
    else
      do fail <- (if active then lift (status_get_truthy e failed) else ret false);
      if fail then
        do name <- lift (job_item_name e);
        run db_set name "status" (VStr "failed");
        run backend (JobDelete (job_name e));
        ret JIdle
      else ret JIdle.

(** One evaluation of the condition of the first loop: leave it as soon
    as the record holds a true ['pod'], sleep otherwise. *)
Definition wait_pod_poll (name : string) : M jobs_pc :=
  do has <- db_get_truthy name "pod";
  if has then ret (JWaitGone name) else ret (JWaitPod name).

(** [x.name] on a stored value. *)
Definition name_attr (x : pyval) : M string :=
  match x with
  | VJob n => ret n
  | VPod n => ret n
  | _ => raise AttributeError
  end.

(** One evaluation of [job.exists()] in the second loop, answered
    [exists_] by the backend; on [False] the branch goes on to the call
    [job_db[job.name]['pod'].delete()], in which the thread blocks. *)
Definition wait_gone_poll (name : string) (exists_ : bool) : M jobs_pc :=
  run backend (JobExists name exists_);
  if exists_ then ret (JWaitGone name)
  else
    do p <- db_field name "pod";
    do _n <- name_attr p;
    do p' <- db_field name "pod";
    run delete_method p';
    ret (JDeletingPod name).

(** [job_db[job.name]['deleted'] = True], once [pod.delete()] is back. *)
Definition tombstone (name : string) : M jobs_pc :=
  run db_set name "deleted" (VBool true);
  ret JIdle.

(** ** The two reconciler threads over the shared table *)

(** [watch_pods] up to the moment it blocks in [pod.logs()]: the part of
    the [try] block before the call returns.  The result tells whether
    the call was made. *)
Definition take_note_before_logs (v : python) (p : pod) (job_name : string) : M bool :=
  do restarts <- lift (read_restarts p);
  do exit_code <- lift (read_exit_code p);
  run db_set job_name "restart_count" (VInt restarts);
  do max_restart_count <- db_field job_name "max_restart_count";
  do reached <- lift (int_ge v restarts max_restart_count);
  do escalate <- (if reached then lift (exit_code_gt_0 v exit_code) else ret false);
  if escalate then
    run backend (PodLogs (pod_name p));
    ret true
  else ret false.

(** The rest of the [try] block, once [pod.logs()] has returned. *)
Definition take_note_after_logs (p : pod) (job_name : string) : M unit :=
  run db_set job_name "log" (VStr (pod_logs p));
  run db_set job_name "status" (VStr "failed");
  do obj <- db_field job_name "obj";
  delete_method obj.

(** Where the [watch_pods] thread stands: between two events, inside
    the call [pod.logs()] of an escalation (with the pod of the event and
    the job name it was correlated to), or terminated by an uncaught
    exception. *)
Inductive pods_pc :=
| PIdle
| PLogs (p : pod) (job_name : string)
| PDead (e : exn).

(** The end of a piece of the [try] block: [except KeyError] ends the
    iteration, any other exception ends the thread. *)
Definition pods_try {A} (body : M A) (next : A -> pods_pc) : M pods_pc :=
  fun w => match body w with
           | (Ok a, w') => (Ok (next a), w')
           | (Raise KeyError, w') => (Ok PIdle, w')
           | (Raise e, w') => (Raise e, w')
           end.

(** An iteration of [watch_pods] from the arrival of the event to the
    point where it blocks in [pod.logs()] or ends. *)
Definition pods_event (v : python) (p : pod) : M pods_pc :=
  do unended <- unended_jobs unended_for_pods;
  let job_name := job_name_of_pod (pod_name p) in
  run store_pod p job_name;
  if bool_decide (job_name ∈ unended)
  then pods_try (take_note_before_logs v p job_name)
         (fun escalate => if escalate then PLogs p job_name else PIdle)
  else ret PIdle.

(** The same iteration from the return of [pod.logs()] on. *)
Definition pods_return (p : pod) (job_name : string) : M pods_pc :=
  pods_try (take_note_after_logs p job_name) (fun _ => PIdle).

(** The two threads share [job_db] without any lock.  A thread is cut
    where it blocks, which is where the interpreter lets the other one
    run: in [time.sleep] and inside a call to the backend that is
    followed by more work on the table ([pod.logs()] in [watch_pods],
    [pod.delete()] in [watch_jobs]). *)
Record system := System {
  sys_world : world;
  jobs_thread : jobs_pc;
  pods_thread : pods_pc
}.

(** What may happen next: the pod stream delivers an event; the call
    [pod.logs()] returns; the job stream delivers an event; a polling
    loop of [watch_jobs] evaluates its condition ([exists_] is the
    backend's answer to [job.exists()]); the call [pod.delete()]
    returns. *)
Inductive action :=
| PodEvent (p : pod)
| PodReturn
| JobEvent (e : job_event)
| JobPoll (exists_ : bool)
| JobReturn.

Definition jobs_resume (r : outcome jobs_pc * world) (s : system) : system :=
  match r with
  | (Ok pc, w) => System w pc (pods_thread s)
  | (Raise e, w) => System w (JDead e) (pods_thread s)
  end.

Definition pods_resume (r : outcome pods_pc * world) (s : system) : system :=
  match r with
  | (Ok pc, w) => System w (jobs_thread s) pc
  | (Raise e, w) => System w (jobs_thread s) (PDead e)
  end.

(** One step of the controller.  An action its thread cannot take in
    the current state (an event while the thread is inside a handler,
    anything for a dead thread) leaves the system as it is. *)
Definition step (v : python) (a : action) (s : system) : system :=
  match a with
  | PodEvent p =>
      match pods_thread s with
      | PIdle => pods_resume (pods_event v p (sys_world s)) s
      | _ => s
      end
  | PodReturn =>
      match pods_thread s with
      | PLogs p job_name => pods_resume (pods_return p job_name (sys_world s)) s
      | _ => s
      end
  | JobEvent e =>
      match jobs_thread s with
      | JIdle => jobs_resume (watch_jobs_event e (sys_world s)) s
      | _ => s
      end
  | JobPoll exists_ =>
      match jobs_thread s with
      | JWaitPod name => jobs_resume (wait_pod_poll name (sys_world s)) s
      | JWaitGone name => jobs_resume (wait_gone_poll name exists_ (sys_world s)) s
      | _ => s
      end
  | JobReturn =>
      match jobs_thread s with
      | JDeletingPod name => jobs_resume (tombstone name (sys_world s)) s
      | _ => s
      end
  end.

Definition exec (v : python) (sched : list action) (s : system) : system :=
  fold_left (fun s a => step v a s) sched s.

(** [watch_pods] itself, on a finite prefix of its stream: the loop ends
    at the first exception that escapes an iteration. *)
Fixpoint watch_pods (v : python) (stream : list pod) : M unit :=
  match stream with
  | [] => ret tt
  | p :: rest => run watch_pods_event v p; watch_pods v rest
  end.

(** ** The REST surface ([app.py]) *)

Record response := Response {
  status_code : nat;
  payload : pyval
}.

(** What the client receives: Flask turns [abort(code)] into a response
    with that status and any other uncaught exception into a 500. *)
Definition http_status (r : outcome response) : nat :=
  match r with
  | Ok resp => status_code resp
  | Raise (HTTPAbort code) => code
  | Raise _ => 500
  end.

(** [del d[k]] *)
Definition py_del (k : string) (d : gmap string pyval) : outcome (gmap string pyval) :=
  match d !! k with
  | Some _ => Ok (delete k d)
  | None => Raise KeyError
  end.

(** The three statements applied to one (copied) record, shared by
    [filter_jobs] and [get_job]. *)
Definition strip_record (job : gmap string pyval) : outcome (gmap string pyval) :=
  match py_del "obj" job with
  | Raise e => Raise e
  | Ok job1 =>
      match py_del "deleted" job1 with
      | Raise e => Raise e
      | Ok job2 =>
          if get_truthy job2 "pod" then py_del "pod" job2 else Ok job2
      end
  end.

(** The [for job_name in job_db_copy] loop, updating the copy in place. *)
Fixpoint filter_loop (names : list string)
    (job_db_copy : gmap string (gmap string pyval))
    : outcome (gmap string (gmap string pyval)) :=
  match names with
  | [] => Ok job_db_copy
  | job_name :: rest =>
      match job_db_copy !! job_name with
      | None => Raise KeyError
      | Some job =>
          match strip_record job with
          | Raise e => Raise e
          | Ok job' => filter_loop rest (<[job_name := job']> job_db_copy)
          end
      end
  end.

Definition filter_jobs (db : gmap string (gmap string pyval))
    : outcome (gmap string (gmap string pyval)) :=
  filter_loop (map_to_list db).*1 db.

(** [GET /jobs] *)
Definition get_jobs (db : gmap string (gmap string pyval)) : outcome response :=
  match filter_jobs db with
  | Raise e => Raise e
  | Ok view => Ok (Response 200 (VDict {[ "jobs" := VDict (VDict <$> view) ]}))
  end.

(** [GET /jobs/<job_id>] *)
Definition get_job (db : gmap string (gmap string pyval)) (job_id : string)
    : outcome response :=
  match db !! job_id with
  | Some job =>
      match strip_record job with
      | Raise e => Raise e
      | Ok job_copy => Ok (Response 200 (VDict {[ "job" := VDict job_copy ]}))
      end
  | None => Raise (HTTPAbort 404)
  end.

(** [request.json[k] if k in request.json else default] *)
Definition json_or (body : gmap string pyval) (k : string) (default : pyval) : pyval :=
  match body !! k with
  | Some x => x
  | None => default
  end.

(** The record [create_job] stores: the request body plus six fields. *)
Definition new_record (body : gmap string pyval) (job_id : string) (job_obj : pyval)
    : gmap string pyval :=
  <["deleted" := VBool false]>
  (<["obj" := job_obj]>
  (<["max_restart_count" := VInt 3]>
  (<["restart_count" := VInt 0]>
  (<["status" := VStr "started"]>
  (<["job-id" := VStr job_id]> body))))).

(** The call [instantiate_job(job_id, request.json['docker-img'], cmd,
    cvmfs_repos, env_vars, request.json['experiment'],
    shared_file_system=True)] with its arguments as [create_job]
    prepares them.  [instantiate_job] is whatever the name is bound to:
    it returns a handle, returns [None], or raises. *)
Definition instantiate_job_call
    (instantiate_job :
       string -> pyval -> pyval -> pyval -> pyval -> pyval -> bool -> outcome pyval)
    (body : gmap string pyval) (job_id : string)
    (docker_img experiment : pyval) : outcome pyval :=
  let cmd := json_or body "cmd" VNone in
  let env_vars := json_or body "env-vars" (VDict ∅) in
  let cvmfs_repos :=
    if get_truthy body "cvmfs_mounts"
    then json_or body "cvmfs_mounts" VNone
    else VList [] in
  instantiate_job job_id docker_img cmd cvmfs_repos env_vars experiment true.

(** [POST /jobs].  [request_json] is the parsed body, a JSON object
    ([None] when the request carries none), and [job_id] the value drawn
    from [uuid.uuid4()]. *)
Definition create_job
    (instantiate_job :
       string -> pyval -> pyval -> pyval -> pyval -> pyval -> bool -> outcome pyval)
    (request_json : option (gmap string pyval)) (job_id : string) : M response :=
  match request_json with
  | None => raise (HTTPAbort 400)
  | Some body =>
      if bool_decide (body = ∅) then raise (HTTPAbort 400)
      else
        match body !! "experiment", body !! "docker-img" with
        | Some experiment, Some docker_img =>
            do job_obj <- lift (instantiate_job_call instantiate_job body job_id
                                  docker_img experiment);
            if truthy job_obj then
              fun w =>
                (Ok (Response 201 (VDict {[ "job-id" := VStr job_id ]})),
                 World (<[job_id := new_record body job_id job_obj]> (job_db w))
                       (calls w))
            else
              ret (Response 500 (VDict {[ "job" := VStr "Could not be allocated" ]}))
        | _, _ => raise (HTTPAbort 400)
        end
  end.

(** How Python binds the arguments of a call to a function whose
    parameters are all plain names without defaults: as many positional
    arguments as given fill the first parameters, every keyword must name
    one of the remaining ones, and none may be left over. *)
Definition bind_arguments (params : list string) (positional : nat)
    (keywords : list string) : outcome unit :=
  if (positional <=? length params)%nat
     && forallb (fun k => bool_decide (k ∈ drop positional params)) keywords
     && (length params =? positional + length keywords)%nat
     && bool_decide (NoDup keywords)
  then Ok tt else Raise TypeError.

(** [def instantiate_job(job_manifest)] of [k8s.py], the function
    [app.py] imports under that name: one parameter. *)
Definition instantiate_job_params : list string := ["job_manifest"].

(** The call in [create_job] against that definition.  The arguments do
    not bind, so the body of the function is never entered. *)
Definition instantiate_job_as_imported
    (job_id : string) (docker_img cmd cvmfs_repos env_vars experiment : pyval)
    (shared_file_system : bool) : outcome pyval :=
  match bind_arguments instantiate_job_params 6 ["shared_file_system"] with
  | Raise e => Raise e
  | Ok _ => Ok VNone
  end.

(** ** The manifest builder ([prepare_job]) *)

(** A volume dictionary: its ['name'] and every other key. *)
Record volume := Volume {
  volume_name : string;
  volume_rest : gmap string pyval
}.

(** [{'name': ..., 'mountPath': ...}] *)
Record volume_mount := VolumeMount {
  mount_name : string;
  mountPath : string
}.

(** An entry of [get_k8s_secret_volumes(namespace)]. *)
Record secret_volume := {
  secret : pyval;
  secret_mountPath : string
}.

(** [job['spec']['template']['spec']['containers'][0]] *)
Record container := Container {
  container_name : string;
  image : string;
  command : option (list string);
  env : list (string * string);
  volumeMounts : list volume_mount
}.

(** The parts of the Job manifest [prepare_job] touches. *)
Record manifest := Manifest {
  metadata_name : string;
  metadata_namespace : string;
  template_metadata_name : string;
  container0 : container;
  volumes : list volume
}.

(** ['{}'.format(num)] *)
Definition format_num (num : nat) : string :=
  NilEmpty.string_of_uint (Nat.to_uint num).

(** [for num, x in enumerate(l): body], threading the manifest. *)
Fixpoint for_enumerate {A St : Type} (body : nat -> A -> St -> St)
    (num : nat) (l : list A) (s : St) : St :=
  match l with
  | [] => s
  | x :: rest => for_enumerate body (S num) rest (body num x s)
  end.

Definition append_mount_and_volume (m : volume_mount) (vol : volume)
    (job : manifest) : manifest :=
  let c := container0 job in
  Manifest (metadata_name job) (metadata_namespace job)
    (template_metadata_name job)
    (Container (container_name c) (image c) (command c) (env c)
       (volumeMounts c ++ [m]))
    (volumes job ++ [vol]).

(** [instantiate_job(job_manifest)] of [k8s.py]: the handle of the
    created Job, or [None] when the API server answers with an HTTP
    error ([backend_accepts] is that answer). *)
Definition instantiate_job (backend_accepts : bool) (job_manifest : manifest)
    : outcome pyval :=
  if backend_accepts then Ok (VJob (metadata_name job_manifest)) else Ok VNone.

Section PrepareJob.

(** [resources/job_template.yml], the module [volume_templates] and
    [shlex.split] are not among the sources; [prepare_job] is modelled
    over whatever they provide. *)
Variable job_template : manifest.
Variable get_k8s_cephfs_volume : string -> volume.
Variable CEPHFS_MOUNT_PATH : string.
Variable get_k8s_cvmfs_volume : string -> string -> volume.
Variable get_cvmfs_mount_point : string -> string.
Variable get_k8s_secret_volumes : string -> list secret_volume.
Variable shlex_split : string -> list string.

Definition add_shared_volume (job : manifest) (namespace : string) : manifest :=
  let volume := get_k8s_cephfs_volume namespace in
  let mount_path := CEPHFS_MOUNT_PATH in
  append_mount_and_volume (VolumeMount (volume_name volume) mount_path) volume job.

Definition add_cvmfs_repo (namespace : string) (num : nat) (repo : string)
    (job : manifest) : manifest :=
  let volume := get_k8s_cvmfs_volume namespace repo in
  let mount_path := get_cvmfs_mount_point repo in
  let volume := Volume (volume_name volume ++ "-" ++ format_num num)
                       (volume_rest volume) in
  append_mount_and_volume (VolumeMount (volume_name volume) mount_path) volume job.

Definition add_secret (num : nat) (s : secret_volume) (job : manifest) : manifest :=
  let secretname := "secret-" ++ format_num num in
  let volume := Volume secretname {[ "secret" := secret s ]} in
  let mount := VolumeMount secretname (secret_mountPath s) in
  append_mount_and_volume mount volume job.

Definition set_command (cmd : option string) (job : manifest) : manifest :=
  match cmd with
  | Some c =>
      if negb (String.eqb c "") then
        let k := container0 job in
        Manifest (metadata_name job) (metadata_namespace job)
          (template_metadata_name job)
          (Container (container_name k) (image k) (Some (shlex_split c))
             (env k) (volumeMounts k))
          (volumes job)
      else job
  | None => job
  end.

Definition add_env (var_value : string * string) (job : manifest) : manifest :=
  let k := container0 job in
  Manifest (metadata_name job) (metadata_namespace job)
    (template_metadata_name job)
    (Container (container_name k) (image k) (command k)
       (env k ++ [var_value]) (volumeMounts k))
    (volumes job).

(** [env_vars] is given as its [items()], in iteration order. *)
Definition prepare_job (job_id docker_img : string) (cmd : option string)
    (cvmfs_repos : list string) (env_vars : list (string * string))
    (namespace : string) (shared_file_system scopesecrets : bool) : manifest :=
  let job := job_template in
  let k := container0 job in
  let job := Manifest job_id namespace job_id
               (Container job_id docker_img (command k) (env k) (volumeMounts k))
               (volumes job) in
  let job := set_command cmd job in
  let job := match env_vars with
             | [] => job
             | _ => fold_left (fun j vv => add_env vv j) env_vars job
             end in
  let job := if shared_file_system then add_shared_volume job namespace else job in
  let job := match cvmfs_repos with
             | [] => job
             | _ => for_enumerate (add_cvmfs_repo namespace) 0 cvmfs_repos job
             end in
  let job := if scopesecrets
             then for_enumerate add_secret 0 (get_k8s_secret_volumes namespace) job
             else job in
  job.

End PrepareJob.

(** ** Invariants of the table *)

(** Every record carries the two keys the comprehensions read; this is
    what [create_job] establishes and no reconciler removes a key. *)
Definition table_ok (db : gmap string (gmap string pyval)) : Prop :=
  forall n r, db !! n = Some r ->
    is_Some (r !! "deleted") /\ is_Some (r !! "status").

(** How a record may differ after reconciler steps: ['pod'] is assigned
    only where there was no true value, and then a pod handle; ['status']
    is only ever set to ['succeeded'] or ['failed']; ['deleted'] only
    ever becomes [True]; ['obj'] is never assigned. *)
Definition rec_upd (r r' : gmap string pyval) : Prop :=
  (r' !! "pod" = r !! "pod" \/
   (get_truthy r "pod" = false /\ exists p, r' !! "pod" = Some (VPod p))) /\
  r' !! "obj" = r !! "obj" /\
  (r' !! "status" = r !! "status" \/
   r' !! "status" = Some (VStr "succeeded") \/
   r' !! "status" = Some (VStr "failed")) /\
  (r' !! "deleted" = r !! "deleted" \/ r' !! "deleted" = Some (VBool true)).

(** The same for the whole world: no record appears or disappears and
    the trace of backend calls only grows. *)
Definition upd (w w' : world) : Prop :=
  (forall n, job_db w !! n = None -> job_db w' !! n = None) /\
  (forall n r, job_db w !! n = Some r ->
     exists r', job_db w' !! n = Some r' /\ rec_upd r r') /\
  (exists cs, calls w' = (calls w ++ cs)%list).

(** The record of [n], if any, is not tombstoned. *)
Definition active (n : string) (w : world) : Prop :=
  forall r, job_db w !! n = Some r -> unended_for_jobs r = Ok true.

(** The ['deleted'] field of every record of [w] is the same in [w']. *)
Definition same_deleted (w w' : world) : Prop :=
  forall n r, job_db w !! n = Some r ->
    exists r', job_db w' !! n = Some r' /\ r' !! "deleted" = r !! "deleted".

(** [m] keeps the assertion [J] on the world, whatever it returns and
    whether or not it raises. *)
Definition preserves {A} (J : world -> Prop) (m : M A) : Prop :=
  forall w, J w -> J (m w).2.

(** A single field assignment stays within the frame when it respects
    the guards. *)
Definition write_ok (r : gmap string pyval) (k : string) (x : pyval) : Prop :=
  (k = "pod" -> get_truthy r "pod" = false /\ exists p, x = VPod p) /\
  k <> "obj" /\
  (k = "status" -> x = VStr "succeeded" \/ x = VStr "failed") /\
  (k = "deleted" -> x = VBool true).

(** No record keeps a pod handle where [create_job] stores the workload
    handle. *)
Definition obj_ok (db : gmap string (gmap string pyval)) : Prop :=
  forall n r p, db !! n = Some r -> r !! "obj" <> Some (VPod p).

(** The ['pod'] field of a record is absent, false, or a pod handle. *)
Definition pod_ok (r : gmap string pyval) : Prop :=
  get_truthy r "pod" = false \/ exists p, r !! "pod" = Some (VPod p).

Definition tombstoned (n : string) (w : world) : Prop :=
  exists r d, job_db w !! n = Some r /\ r !! "deleted" = Some d /\ truthy d = true.

Definition is_pod_delete (c : backend_call) : bool :=
  match c with
  | PodDelete _ => true
  | _ => false
  end.

(** The pod deletions of a trace, in order. *)
Definition pod_deletes (cs : list backend_call) : list backend_call :=
  List.filter is_pod_delete cs.

(** The record of [n] holds a pod reference, and the trace shows the
    backend answering that the workload [n] no longer exists and, as the
    next call, the deletion of that pod. *)
Definition confirmed (n : string) (w : world) : Prop :=
  exists r p cs1 cs2,
    job_db w !! n = Some r /\ r !! "pod" = Some (VPod p) /\
    calls w = (cs1 ++ JobExists n false :: PodDelete p :: cs2)%list.

(** [watch_jobs] is inside the [DELETED] branch for [n] (or was ended
    there), the record is not tombstoned and no pod was deleted since the
    trace was [cs0]. *)
Definition waiting (n : string) (cs0 : list backend_call) (s : system) : Prop :=
  (exists r, job_db (sys_world s) !! n = Some r /\
     unended_for_jobs r = Ok true /\ pod_ok r /\
     (jobs_thread s = JWaitGone n -> get_truthy r "pod" = true)) /\
  (jobs_thread s = JWaitPod n \/ jobs_thread s = JWaitGone n \/
   exists e, jobs_thread s = JDead e) /\
  obj_ok (job_db (sys_world s)) /\
  pod_deletes (calls (sys_world s)) = pod_deletes cs0.

(** ** Sample data *)

(** A record as [create_job] stores it for the request
    [{"experiment": "atlas", "docker-img": "busybox"}]. *)
Definition sample_body : gmap string pyval :=
  {[ "experiment" := VStr "atlas"; "docker-img" := VStr "busybox" ]}.

Definition sample_record : gmap string pyval :=
  new_record sample_body "job" (VJob "job").

(** The same job after its workload completed. *)
Definition sample_succeeded : gmap string pyval :=
  <["status" := VStr "succeeded"]> sample_record.

Definition sample_system (r : gmap string pyval) : system :=
  System (World {[ "job" := r ]} []) JIdle PIdle.

(** A pod of that job whose container terminated with exit code 1 after
    three restarts. *)
Definition crashed_pod : pod :=
  {| pod_name := "job-x7k2p";
     pod_obj_status := Some {| containerStatuses := Some [
       {| restartCount := Some 3%Z;
          state := Some {| terminated := Some {| exitCode := Some 1%Z |} |} |} ] |};
     pod_logs := "Traceback" |}.

(** The record after [store_pod]: the reference is stored unless the
    record already holds a true ['pod']. *)
Definition attach (p : pod) (r : gmap string pyval) : gmap string pyval :=
  if get_truthy r "pod" then r else <["pod" := VPod (pod_name p)]> r.

Definition sample_world (r : gmap string pyval) : world :=
  World {[ "job" := r ]} [].

(** A workload event reporting one succeeded pod. *)
Definition completion_event : job_event :=
  {| event_type := "MODIFIED";
     job_name := "job";
     job_obj_status := Some {| succeeded := Some 1%Z; failed := None |};
     job_subscriptable := false |}.

(** The backend confirms that the workload object is gone. *)
Definition deletion_event : job_event :=
  {| event_type := "DELETED";
     job_name := "job";
     job_obj_status := Some {| succeeded := Some 1%Z; failed := None |};
     job_subscriptable := false |}.

(** A pod that has not been scheduled yet: no [containerStatuses]. *)
Definition pending_pod : pod :=
  {| pod_name := "job-x7k2p";
     pod_obj_status := Some {| containerStatuses := None |};
     pod_logs := "" |}.

(** The same pod with an empty [containerStatuses] list. *)
Definition empty_statuses_pod : pod :=
  {| pod_name := "job-x7k2p";
     pod_obj_status := Some {| containerStatuses := Some [] |};
     pod_logs := "" |}.

(** A pod in back-off: three restarts, container waiting, hence no
    [terminated] state. *)
Definition backoff_pod : pod :=
  {| pod_name := "job-x7k2p";
     pod_obj_status := Some {| containerStatuses := Some [
       {| restartCount := Some 3%Z;
          state := Some {| terminated := None |} |} ] |};
     pod_logs := "" |}.

(** Its first start: no restart yet, container running. *)
Definition running_pod : pod :=
  {| pod_name := "job-x7k2p";
     pod_obj_status := Some {| containerStatuses := Some [
       {| restartCount := Some 0%Z;
          state := Some {| terminated := None |} |} ] |};
     pod_logs := "" |}.

(** The same pod after two restarts, its container waiting to be
    started again. *)
Definition restarting_pod : pod :=
  {| pod_name := "job-x7k2p";
     pod_obj_status := Some {| containerStatuses := Some [
       {| restartCount := Some 2%Z;
          state := Some {| terminated := None |} |} ] |};
     pod_logs := "" |}.

(** ** Assertions about the REST surface *)

(** Every record has the two keys the views delete unconditionally. *)
Definition views_ok (db : gmap string (gmap string pyval)) : Prop :=
  forall j r, db !! j = Some r -> is_Some (r !! "obj") /\ is_Some (r !! "deleted").

(** A create request lacks a required field. *)
Definition missing_required (request_json : option (gmap string pyval)) : Prop :=
  match request_json with
  | None => True
  | Some body => body !! "experiment" = None \/ body !! "docker-img" = None
  end.

(** The keys [create_job] assigns after copying the request body. *)
Definition assigned_by_create : list string :=
  ["job-id"; "status"; "restart_count"; "max_restart_count"; "obj"; "deleted"].

(** The keys the public views delete. *)
Definition stripped_by_views : list string := ["obj"; "deleted"; "pod"].

(** A callee that hands back a Job handle named after the job id, and
    one that reports a refusal of the backend. *)
Definition accepting (job_id : string)
    (docker_img cmd cvmfs_repos env_vars experiment : pyval)
    (shared_file_system : bool) : outcome pyval :=
  Ok (VJob job_id).

Definition refusing (job_id : string)
    (docker_img cmd cvmfs_repos env_vars experiment : pyval)
    (shared_file_system : bool) : outcome pyval :=
  Ok VNone.

(** What a public view [job] of the record [r] must not show: the
    workload handle, the tombstone flag, and the pod reference.  (The
    only value a view can carry under ['pod'] is a false one, which no
    reconciler writes; once the record's ['pod'] is absent or a handle,
    the key is gone.) *)
Definition internal_hidden (r job : gmap string pyval) : Prop :=
  job !! "obj" = None /\
  job !! "deleted" = None /\
  (forall p, job !! "pod" <> Some (VPod p)) /\
  ((r !! "pod" = None \/ exists p, r !! "pod" = Some (VPod p)) ->
   job !! "pod" = None).

(** A job as a client might have posted it, with a field of its own,
    after a failure escalation and with its pod attached. *)
Definition sample_failed : gmap string pyval :=
  <["pod" := VPod "job-x7k2p"]>
  (<["log" := VStr "Traceback"]>
  (<["status" := VStr "failed"]>
  (new_record (<["color" := VStr "blue"]> sample_body) "job" (VJob "job")))).

(** The fields of a manifest that appending mounts and volumes leaves
    alone. *)
Definition manifest_head (job : manifest)
    : string * string * string * string * string * option (list string)
      * list (string * string) :=
  (metadata_name job, metadata_namespace job, template_metadata_name job,
   container_name (container0 job), image (container0 job),
   command (container0 job), env (container0 job)).

(** Whether the character occurs in the string. *)
Fixpoint has_char (c : ascii) (s : string) : bool :=
  match s with
  | EmptyString => false
  | String a s' => Ascii.eqb a c || has_char c s'
  end.

(** Stand-ins for the job template and the volume templates, for
    running [prepare_job] on the request of the API documentation. *)
Definition sample_template : manifest :=
  Manifest "" "" "" (Container "" "" None [] []) [].

Definition sample_cephfs_volume (namespace : string) : volume :=
  Volume "cephfs" {[ "persistentVolumeClaim" := VStr namespace ]}.

Definition sample_cvmfs_volume (namespace repo : string) : volume :=
  Volume "cvmfs" {[ "persistentVolumeClaim" := VStr repo; "readOnly" := VBool true ]}.

Definition sample_cvmfs_mount_point (repo : string) : string :=
  "/cvmfs/" ++ repo.

Definition sample_secret_volumes (namespace : string) : list secret_volume :=
  [ {| secret := VStr "token"; secret_mountPath := "/etc/token" |} ].

Definition sample_prepare_job :
    string -> string -> option string -> list string -> list (string * string) ->
    string -> bool -> bool -> manifest :=
  prepare_job sample_template sample_cephfs_volume "/data" sample_cvmfs_volume
    sample_cvmfs_mount_point sample_secret_volumes (split " "%char).

(** ** Requests and reconciler steps together *)

(** Something the running controller does next: answer a [POST /jobs]
    (with the callee the name [instantiate_job] is bound to, the parsed
    body and the drawn id) or take a reconciler step. *)
Inductive operation :=
| Post (instantiate_job :
          string -> pyval -> pyval -> pyval -> pyval -> pyval -> bool -> outcome pyval)
       (request_json : option (gmap string pyval)) (job_id : string)
| Reconcile (a : action).

Definition perform (v : python) (s : system) (op : operation) : system :=
  match op with
  | Post instantiate_job request_json job_id =>
      System (create_job instantiate_job request_json job_id (sys_world s)).2
             (jobs_thread s) (pods_thread s)
  | Reconcile a => step v a s
  end.

(** The controller as [app.py] starts it: empty [JOB_DB], both loops at
    the top. *)
Definition initial_system : system := System (World ∅ []) JIdle PIdle.

(** [watch_pods_event] in terms of the two pieces: the iteration when
    nothing else runs while it waits for [pod.logs()]. *)
Definition pods_uninterrupted (v : python) (p : pod) : M unit :=
  fun w => match pods_event v p w with
           | (Ok (PLogs q job_name), w1) =>
               match pods_return q job_name w1 with
               | (Ok _, w2) => (Ok tt, w2)
               | (Raise e, w2) => (Raise e, w2)
               end
           | (Ok _, w1) => (Ok tt, w1)
           | (Raise e, w1) => (Raise e, w1)
           end.


(** * Properties *)

(** ** Comprehensions over the table *)

Lemma comprehension_sound cond items l j :
  comprehension cond items = Ok l -> j ∈ l ->
  exists r, (j, r) ∈ items /\ cond r = Ok true.
Proof.
  revert l. induction items as [|[j' r'] items IH]; intros l H Hj; simpl in H.
  - inversion H; subst. by apply elem_of_nil in Hj.
  - destruct (cond r') as [b|] eqn:Hc; [|discriminate].
    destruct (comprehension cond items) as [js|] eqn:Hrest; [|discriminate].
    inversion H; subst; clear H.
    destruct b.
    + apply elem_of_cons in Hj as [->|Hj].
      * exists r'. split; [left | done].
      * destruct (IH js eq_refl Hj) as (r & Hin & Hr).
        exists r. split; [by right | done].
    + destruct (IH js eq_refl Hj) as (r & Hin & Hr).
      exists r. split; [by right | done].
Qed.

Lemma comprehension_complete cond items :
  (forall j r, (j, r) ∈ items -> exists b, cond r = Ok b) ->
  exists l, comprehension cond items = Ok l /\
    forall j r, (j, r) ∈ items -> cond r = Ok true -> j ∈ l.
Proof.
  induction items as [|[j' r'] items IH]; intros Hall; simpl.
  - exists []. split; [done|]. intros j r Hin. by apply elem_of_nil in Hin.
  - destruct (Hall j' r') as [b Hb]; [left|]. rewrite Hb.
    destruct IH as (js & -> & Hjs).
    { intros j r Hin. apply (Hall j r). by right. }
    eexists. split; [done|].
    intros j r Hin Hr. apply elem_of_cons in Hin as [Heq|Hin].
    + inversion Heq; subst. rewrite Hb in Hr. inversion Hr; subst. left.
    + destruct b; [right|]; by eapply Hjs.
Qed.

(** A name selected by a comprehension over the table is a key of the
    table whose record satisfies the condition. *)
Lemma unended_jobs_sound cond w l j :
  (unended_jobs cond w).1 = Ok l -> j ∈ l ->
  exists r, job_db w !! j = Some r /\ cond r = Ok true.
Proof.
  unfold unended_jobs; simpl. intros H Hj.
  destruct (comprehension_sound _ _ _ _ H Hj) as (r & Hin & Hr).
  exists r. split; [|done]. by apply elem_of_map_to_list in Hin.
Qed.

Lemma unended_jobs_world cond w : (unended_jobs cond w).2 = w.
Proof. reflexivity. Qed.

Lemma unended_for_pods_total db n r :
  table_ok db -> db !! n = Some r -> exists b, unended_for_pods r = Ok b.
Proof.
  intros Hok Hr. destruct (Hok n r Hr) as [[d Hd] [s Hs]].
  unfold unended_for_pods. rewrite Hd, Hs. destruct (truthy d); eauto.
Qed.

Lemma unended_for_jobs_total db n r :
  table_ok db -> db !! n = Some r -> exists b, unended_for_jobs r = Ok b.
Proof.
  intros Hok Hr. destruct (Hok n r Hr) as [[d Hd] _].
  unfold unended_for_jobs. rewrite Hd. eauto.
Qed.

Lemma unended_jobs_complete cond w :
  (forall n r, job_db w !! n = Some r -> exists b, cond r = Ok b) ->
  exists l, unended_jobs cond w = (Ok l, w) /\
    forall j, j ∈ l <-> exists r, job_db w !! j = Some r /\ cond r = Ok true.
Proof.
  intros Hall. unfold unended_jobs.
  destruct (comprehension_complete cond (map_to_list (job_db w))) as (l & Hl & Hin).
  { intros j r Hjr. apply elem_of_map_to_list in Hjr. eauto. }
  exists l. rewrite Hl. split; [done|]. intros j; split.
  - intros Hj. destruct (comprehension_sound _ _ _ _ Hl Hj) as (r & Hr & Hc).
    apply elem_of_map_to_list in Hr. eauto.
  - intros (r & Hr & Hc). apply (Hin j r); [|done]. by apply elem_of_map_to_list.
Qed.

(** ** The frame of reconciler steps *)

Lemma rec_upd_refl r : rec_upd r r.
Proof. unfold rec_upd. auto. Qed.

Lemma rec_upd_trans r1 r2 r3 : rec_upd r1 r2 -> rec_upd r2 r3 -> rec_upd r1 r3.
Proof.
  intros (Hp1 & Ho1 & Hs1 & Hd1) (Hp2 & Ho2 & Hs2 & Hd2). repeat split.
  - destruct Hp2 as [Hp2|[Ht2 [p Hp2]]].
    + rewrite Hp2. exact Hp1.
    + destruct Hp1 as [Hp1|[Ht1 [q Hp1]]].
      * right. split; [|eauto]. unfold get_truthy in *. by rewrite <- Hp1.
      * unfold get_truthy in Ht2. rewrite Hp1 in Ht2. discriminate.
  - congruence.
  - destruct Hs2 as [Hs2|Hs2]; [rewrite Hs2; exact Hs1 | by right].
  - destruct Hd2 as [Hd2|Hd2]; [rewrite Hd2; exact Hd1 | by right].
Qed.

Lemma upd_refl w : upd w w.
Proof.
  repeat split; [done| |exists []; by rewrite app_nil_r].
  intros n r Hr. exists r. split; [done | apply rec_upd_refl].
Qed.

Lemma upd_trans w1 w2 w3 : upd w1 w2 -> upd w2 w3 -> upd w1 w3.
Proof.
  intros (Hn1 & Hr1 & cs1 & Hc1) (Hn2 & Hr2 & cs2 & Hc2). repeat split.
  - auto.
  - intros n r Hr. destruct (Hr1 n r Hr) as (r' & Hr' & Hu1).
    destruct (Hr2 n r' Hr') as (r'' & Hr'' & Hu2).
    exists r''. split; [done | by eapply rec_upd_trans].
  - exists (cs1 ++ cs2)%list. by rewrite Hc2, Hc1, app_assoc.
Qed.

Lemma rec_upd_write r k x : write_ok r k x -> rec_upd r (<[k := x]> r).
Proof.
  intros (Hp & Ho & Hs & Hd). repeat split.
  - destruct (decide (k = "pod")) as [->|Hne].
    + right. destruct (Hp eq_refl) as [Ht [p ->]]. split; [done|].
      exists p. apply lookup_insert_eq.
    + left. by rewrite lookup_insert_ne.
  - by rewrite lookup_insert_ne.
  - destruct (decide (k = "status")) as [->|Hne].
    + right. rewrite lookup_insert_eq. destruct (Hs eq_refl) as [->| ->]; auto.
    + left. by rewrite lookup_insert_ne.
  - destruct (decide (k = "deleted")) as [->|Hne].
    + right. rewrite lookup_insert_eq. by rewrite (Hd eq_refl).
    + left. by rewrite lookup_insert_ne.
Qed.

Lemma upd_write w n r k x :
  job_db w !! n = Some r -> write_ok r k x ->
  upd w (World (<[n := <[k := x]> r]> (job_db w)) (calls w)).
Proof.
  intros Hr Hw. repeat split; simpl.
  - intros n' Hn'. rewrite lookup_insert_ne; [done|]. intros ->. congruence.
  - intros n' r' Hr'. destruct (decide (n = n')) as [->|Hne].
    + rewrite lookup_insert_eq. eexists; split; [done|].
      rewrite Hr in Hr'. inversion Hr'; subst. by apply rec_upd_write.
    + rewrite lookup_insert_ne by done. exists r'. split; [done | apply rec_upd_refl].
  - exists []. by rewrite app_nil_r.
Qed.

Lemma upd_calls w cs : upd w (World (job_db w) (calls w ++ cs)%list).
Proof.
  repeat split; simpl; [done| |by exists cs].
  intros n r Hr. exists r. split; [done | apply rec_upd_refl].
Qed.

(** ** Running one building block on a known state *)

Lemma bind_ok {A B} (m : M A) (f : A -> M B) w a w' :
  m w = (Ok a, w') -> bind m f w = f a w'.
Proof. unfold bind. by intros ->. Qed.

Lemma bind_raise {A B} (m : M A) (f : A -> M B) w e w' :
  m w = (Raise e, w') -> bind m f w = (Raise e, w').
Proof. unfold bind. by intros ->. Qed.

Lemma db_set_ok n k x w r :
  job_db w !! n = Some r ->
  db_set n k x w = (Ok tt, World (<[n := <[k := x]> r]> (job_db w)) (calls w)).
Proof. unfold db_set. by intros ->. Qed.

Lemma db_field_ok n k w r x :
  job_db w !! n = Some r -> r !! k = Some x -> db_field n k w = (Ok x, w).
Proof. unfold db_field, bind, db_item, ret. by intros -> ->. Qed.

Lemma db_get_truthy_ok n k w r :
  job_db w !! n = Some r -> db_get_truthy n k w = (Ok (get_truthy r k), w).
Proof. unfold db_get_truthy, bind, db_item, ret. by intros ->. Qed.

(** ** Assertions kept by the monadic building blocks *)

Section Preserves.
Context (J : world -> Prop).

Lemma preserves_ret {A} (a : A) : preserves J (ret a).
Proof. by intros w Hw. Qed.

Lemma preserves_raise {A} e : preserves J (@raise A e).
Proof. by intros w Hw. Qed.

Lemma preserves_lift {A} (o : outcome A) : preserves J (lift o).
Proof. by intros w Hw. Qed.

Lemma preserves_bind {A B} (m : M A) (f : A -> M B) :
  preserves J m -> (forall a, preserves J (f a)) -> preserves J (bind m f).
Proof.
  intros Hm Hf w Hw. unfold bind. specialize (Hm w Hw).
  destruct (m w) as [[a|e] w']; simpl in *; [by apply Hf | done].
Qed.

(** The continuation only has to be considered for values [lift]ed
    successfully. *)
Lemma preserves_bind_lift {A B} (o : outcome A) (f : A -> M B) :
  (forall a, o = Ok a -> preserves J (f a)) -> preserves J (bind (lift o) f).
Proof.
  intros Hf w Hw. unfold bind, lift. destruct o as [a|e]; [by apply Hf | done].
Qed.

Lemma preserves_try body : preserves J body -> preserves J (try_except_KeyError body).
Proof.
  intros Hb w Hw. unfold try_except_KeyError. specialize (Hb w Hw).
  destruct (body w) as [[[]|[]] w']; done.
Qed.

Lemma preserves_db_item n : preserves J (db_item n).
Proof. intros w Hw. unfold db_item. by destruct (job_db w !! n). Qed.

Lemma preserves_db_field n k : preserves J (db_field n k).
Proof.
  apply preserves_bind; [apply preserves_db_item|].
  intros r. destruct (r !! k); [apply preserves_ret | apply preserves_raise].
Qed.

Lemma preserves_db_get_truthy n k : preserves J (db_get_truthy n k).
Proof.
  apply preserves_bind; [apply preserves_db_item | intros; apply preserves_ret].
Qed.

Lemma preserves_db_mem n : preserves J (db_mem n).
Proof. by intros w Hw. Qed.

Lemma preserves_unended_jobs cond : preserves J (unended_jobs cond).
Proof. by intros w Hw. Qed.

Lemma preserves_db_set n k x :
  (forall w r, J w -> job_db w !! n = Some r ->
     J (World (<[n := <[k := x]> r]> (job_db w)) (calls w))) ->
  preserves J (db_set n k x).
Proof.
  intros Hset w Hw. unfold db_set.
  destruct (job_db w !! n) as [r|] eqn:Hr; [by apply Hset | done].
Qed.

Lemma preserves_backend c :
  (forall w, J w -> J (World (job_db w) (calls w ++ [c]))) ->
  preserves J (backend c).
Proof. intros Hc w Hw. by apply Hc. Qed.

Lemma preserves_delete_method x :
  (forall w c, J w -> J (World (job_db w) (calls w ++ [c]))) ->
  preserves J (delete_method x).
Proof.
  intros Hc. destruct x; try apply preserves_raise;
    apply preserves_backend; auto.
Qed.

Lemma preserves_name_attr x : preserves J (name_attr x).
Proof. destruct x; by intros w Hw. Qed.

End Preserves.

(** [job_db[n][k].delete()]: the call depends on the handle found. *)
Lemma preserves_delete_field (J : world -> Prop) n k :
  (forall w r h, J w -> job_db w !! n = Some r -> r !! k = Some (VJob h) ->
     J (World (job_db w) (calls w ++ [JobDelete h]))) ->
  (forall w r h, J w -> job_db w !! n = Some r -> r !! k = Some (VPod h) ->
     J (World (job_db w) (calls w ++ [PodDelete h]))) ->
  preserves J (bind (db_field n k) delete_method).
Proof.
  intros HJ HP w Hw. unfold bind, db_field, db_item, bind, ret, raise.
  destruct (job_db w !! n) as [r|] eqn:Hr; [|done].
  destruct (r !! k) as [x|] eqn:Hx; [|done].
  destruct x; try done; simpl; eauto.
Qed.

(** [take_note] assigns ['restart_count'], ['log'] and ['status'] of the
    one record [n], fetches the pod log and deletes through the handle
    under ['obj']: any assertion closed under those is kept. *)
Lemma preserves_take_note (J : world -> Prop) v p n :
  (forall w, J w -> J (World (job_db w) (calls w ++ [PodLogs (pod_name p)]))) ->
  (forall w r h, J w -> job_db w !! n = Some r -> r !! "obj" = Some (VJob h) ->
     J (World (job_db w) (calls w ++ [JobDelete h]))) ->
  (forall w r h, J w -> job_db w !! n = Some r -> r !! "obj" = Some (VPod h) ->
     J (World (job_db w) (calls w ++ [PodDelete h]))) ->
  (forall k x w r, J w -> job_db w !! n = Some r ->
     k = "restart_count" \/ k = "log" \/ (k = "status" /\ x = VStr "failed") ->
     J (World (<[n := <[k := x]> r]> (job_db w)) (calls w))) ->
  preserves J (take_note v p n).
Proof.
  intros Hlogs HdelJ HdelP Hset. unfold take_note.
  apply preserves_bind; [apply preserves_lift | intros restarts].
  apply preserves_bind; [apply preserves_lift | intros exit_code].
  apply preserves_bind; [apply preserves_db_set; eauto | intros _].
  apply preserves_bind; [apply preserves_db_field | intros maxv].
  apply preserves_bind; [apply preserves_lift | intros reached].
  apply preserves_bind.
  { destruct reached; [apply preserves_lift | apply preserves_ret]. }
  intros [|]; [|apply preserves_ret].
  apply preserves_bind; [apply preserves_backend; auto | intros _].
  apply preserves_bind; [apply preserves_db_set; eauto | intros _].
  apply preserves_bind; [apply preserves_db_set; eauto 6 | intros _].
  by apply preserves_delete_field.
Qed.

(** The two pieces of [take_note] around [pod.logs()]. *)
Lemma preserves_take_note_before_logs (J : world -> Prop) v p n :
  (forall w, J w -> J (World (job_db w) (calls w ++ [PodLogs (pod_name p)]))) ->
  (forall x w r, J w -> job_db w !! n = Some r ->
     J (World (<[n := <["restart_count" := x]> r]> (job_db w)) (calls w))) ->
  preserves J (take_note_before_logs v p n).
Proof.
  intros Hlogs Hset. unfold take_note_before_logs.
  apply preserves_bind; [apply preserves_lift | intros restarts].
  apply preserves_bind; [apply preserves_lift | intros exit_code].
  apply preserves_bind; [apply preserves_db_set; eauto | intros _].
  apply preserves_bind; [apply preserves_db_field | intros maxv].
  apply preserves_bind; [apply preserves_lift | intros reached].
  apply preserves_bind.
  { destruct reached; [apply preserves_lift | apply preserves_ret]. }
  intros [|]; [|apply preserves_ret].
  apply preserves_bind; [apply preserves_backend; auto | intros _].
  apply preserves_ret.
Qed.

Lemma preserves_take_note_after_logs (J : world -> Prop) p n :
  (forall w r h, J w -> job_db w !! n = Some r -> r !! "obj" = Some (VJob h) ->
     J (World (job_db w) (calls w ++ [JobDelete h]))) ->
  (forall w r h, J w -> job_db w !! n = Some r -> r !! "obj" = Some (VPod h) ->
     J (World (job_db w) (calls w ++ [PodDelete h]))) ->
  (forall k x w r, J w -> job_db w !! n = Some r ->
     k = "log" \/ (k = "status" /\ x = VStr "failed") ->
     J (World (<[n := <[k := x]> r]> (job_db w)) (calls w))) ->
  preserves J (take_note_after_logs p n).
Proof.
  intros HdelJ HdelP Hset. unfold take_note_after_logs.
  apply preserves_bind; [apply preserves_db_set; eauto | intros _].
  apply preserves_bind; [apply preserves_db_set; eauto 6 | intros _].
  by apply preserves_delete_field.
Qed.

Lemma preserves_pods_try (J : world -> Prop) {A} (body : M A) next :
  preserves J body -> preserves J (pods_try body next).
Proof.
  intros Hb w Hw. unfold pods_try. specialize (Hb w Hw).
  destruct (body w) as [[a|[]] w']; done.
Qed.

(** What [store_pod] does: nothing, or the first attachment. *)
Lemma store_pod_effect p n w :
  store_pod p n w = (Ok tt, w) \/
  exists r, job_db w !! n = Some r /\ get_truthy r "pod" = false /\
    store_pod p n w =
      (Ok tt, World (<[n := <["pod" := VPod (pod_name p)]> r]> (job_db w)) (calls w)).
Proof.
  unfold store_pod, bind, db_mem, db_get_truthy, db_item, db_set, ret, bind.
  destruct (job_db w !! n) as [r|] eqn:Hr; simpl; [|by left].
  rewrite Hr. destruct (get_truthy r "pod") eqn:Ht; simpl; [by left|].
  rewrite Hr. right. eauto.
Qed.

Lemma preserves_store_pod (J : world -> Prop) p n :
  (forall w r, J w -> job_db w !! n = Some r -> get_truthy r "pod" = false ->
     J (World (<[n := <["pod" := VPod (pod_name p)]> r]> (job_db w)) (calls w))) ->
  preserves J (store_pod p n).
Proof.
  intros Hset w Hw.
  destruct (store_pod_effect p n w) as [->|(r & Hr & Ht & ->)]; [done|].
  by apply Hset.
Qed.

(** Everything one iteration of [watch_pods] can do to the world, as
    one piece and as the two pieces around [pod.logs()]. *)
Lemma preserves_watch_pods_event (J : world -> Prop) v p :
  let n := job_name_of_pod (pod_name p) in
  (forall w r, J w -> job_db w !! n = Some r -> get_truthy r "pod" = false ->
     J (World (<[n := <["pod" := VPod (pod_name p)]> r]> (job_db w)) (calls w))) ->
  (forall w, J w -> J (World (job_db w) (calls w ++ [PodLogs (pod_name p)]))) ->
  (forall w r h, J w -> job_db w !! n = Some r -> r !! "obj" = Some (VJob h) ->
     J (World (job_db w) (calls w ++ [JobDelete h]))) ->
  (forall w r h, J w -> job_db w !! n = Some r -> r !! "obj" = Some (VPod h) ->
     J (World (job_db w) (calls w ++ [PodDelete h]))) ->
  (forall k x w r, J w -> job_db w !! n = Some r ->
     k = "restart_count" \/ k = "log" \/ (k = "status" /\ x = VStr "failed") ->
     J (World (<[n := <[k := x]> r]> (job_db w)) (calls w))) ->
  preserves J (watch_pods_event v p).
Proof.
  intros n Hpod Hlogs HdelJ HdelP Hset. unfold watch_pods_event.
  apply preserves_bind; [apply preserves_unended_jobs | intros l].
  apply preserves_bind; [by apply preserves_store_pod | intros _].
  case_bool_decide; [|apply preserves_ret].
  by apply preserves_try, preserves_take_note.
Qed.

Lemma preserves_pods_event (J : world -> Prop) v p :
  let n := job_name_of_pod (pod_name p) in
  (forall w r, J w -> job_db w !! n = Some r -> get_truthy r "pod" = false ->
     J (World (<[n := <["pod" := VPod (pod_name p)]> r]> (job_db w)) (calls w))) ->
  (forall w, J w -> J (World (job_db w) (calls w ++ [PodLogs (pod_name p)]))) ->
  (forall x w r, J w -> job_db w !! n = Some r ->
     J (World (<[n := <["restart_count" := x]> r]> (job_db w)) (calls w))) ->
  preserves J (pods_event v p).
Proof.
  intros n Hpod Hlogs Hset. unfold pods_event.
  apply preserves_bind; [apply preserves_unended_jobs | intros l].
  apply preserves_bind; [by apply preserves_store_pod | intros _].
  case_bool_decide; [|apply preserves_ret].
  by apply preserves_pods_try, preserves_take_note_before_logs.
Qed.

Lemma preserves_pods_return (J : world -> Prop) p n :
  (forall w r h, J w -> job_db w !! n = Some r -> r !! "obj" = Some (VJob h) ->
     J (World (job_db w) (calls w ++ [JobDelete h]))) ->
  (forall w r h, J w -> job_db w !! n = Some r -> r !! "obj" = Some (VPod h) ->
     J (World (job_db w) (calls w ++ [PodDelete h]))) ->
  (forall k x w r, J w -> job_db w !! n = Some r ->
     k = "log" \/ (k = "status" /\ x = VStr "failed") ->
     J (World (<[n := <[k := x]> r]> (job_db w)) (calls w))) ->
  preserves J (pods_return p n).
Proof.
  intros HdelJ HdelP Hset.
  by apply preserves_pods_try, preserves_take_note_after_logs.
Qed.

(** What one workload event does to the world: nothing, or the status
    of its own job, found not tombstoned, and the request to delete the
    workload. *)
Lemma watch_jobs_event_effect e w :
  (watch_jobs_event e w).2 = w \/
  exists r x,
    job_db w !! job_name e = Some r /\ unended_for_jobs r = Ok true /\
    (x = VStr "succeeded" \/ x = VStr "failed") /\
    (watch_jobs_event e w).2 =
      World (<[job_name e := <["status" := x]> r]> (job_db w))
            (calls w ++ [JobDelete (job_name e)]).
Proof.
  unfold watch_jobs_event, bind.
  pose proof (unended_jobs_world unended_for_jobs w) as Hw.
  pose proof (unended_jobs_sound unended_for_jobs w) as Hs.
  destruct (unended_jobs unended_for_jobs w) as [[l|ex] w']; simpl in Hw; subst w';
    [|by left].
  case_bool_decide as Hn; cbn [andb]; [|by left].
  destruct (Hs l (job_name e) eq_refl Hn) as (r & Hr & Hc).
  destruct (String.eqb (event_type e) "DELETED"); [by left|].
  unfold lift, job_item_name, db_set, backend, ret.
  destruct (status_get_truthy e succeeded) as [[|]|ex]; [| |by left].
  - right. exists r, (VStr "succeeded"). rewrite Hr. cbn [job_db calls snd]. auto.
  - destruct (status_get_truthy e failed) as [[|]|ex]; [|by left|by left].
    destruct (job_subscriptable e); [|by left].
    right. exists r, (VStr "failed"). rewrite Hr. cbn [job_db calls snd]. auto.
Qed.

(** ** Each reconciler step stays within the frame *)

Lemma active_write n w n' r k x :
  active n w -> k <> "deleted" -> job_db w !! n' = Some r ->
  active n (World (<[n' := <[k := x]> r]> (job_db w)) (calls w)).
Proof.
  intros Ha Hk Hr r' Hr'. simpl in Hr'.
  destruct (decide (n' = n)) as [->|Hne].
  - rewrite lookup_insert_eq in Hr'. inversion Hr'; subst.
    specialize (Ha r Hr). unfold unended_for_jobs in *.
    by rewrite lookup_insert_ne.
  - rewrite lookup_insert_ne in Hr' by done. by apply Ha.
Qed.

Lemma unended_for_pods_jobs r :
  unended_for_pods r = Ok true -> unended_for_jobs r = Ok true.
Proof.
  unfold unended_for_pods, unended_for_jobs.
  destruct (r !! "deleted") as [d|]; [|done].
  destruct (truthy d); [discriminate | done].
Qed.

Lemma upd_then_calls w0 w c :
  upd w0 w -> upd w0 (World (job_db w) (calls w ++ [c])).
Proof. intros H. eapply upd_trans; [exact H | apply upd_calls]. Qed.

Lemma upd_then_write w0 w n r k x :
  upd w0 w -> job_db w !! n = Some r -> write_ok r k x ->
  upd w0 (World (<[n := <[k := x]> r]> (job_db w)) (calls w)).
Proof. intros H Hr Hw. eapply upd_trans; [exact H | by apply upd_write]. Qed.

Lemma watch_pods_event_upd v p w : upd w (watch_pods_event v p w).2.
Proof.
  enough (Hp : preserves (upd w) (watch_pods_event v p)) by exact (Hp w (upd_refl w)).
  apply preserves_watch_pods_event.
  - intros w' r Hu Hr Ht. apply upd_then_write; [done..|].
    repeat split; intros; try done. eauto.
  - intros w' Hu. by apply upd_then_calls.
  - intros w' r h Hu _ _. by apply upd_then_calls.
  - intros w' r h Hu _ _. by apply upd_then_calls.
  - intros k x w' r Hu Hr Hk. apply upd_then_write; [done..|].
    destruct Hk as [->|[->|[-> ->]]]; repeat split; intros; try done. by right.
Qed.

Lemma pods_event_upd v p w : upd w (pods_event v p w).2.
Proof.
  enough (Hp : preserves (upd w) (pods_event v p)) by exact (Hp w (upd_refl w)).
  apply preserves_pods_event.
  - intros w' r Hu Hr Ht. apply upd_then_write; [done..|].
    repeat split; intros; try done. eauto.
  - intros w' Hu. by apply upd_then_calls.
  - intros x w' r Hu Hr. apply upd_then_write; [done..|].
    repeat split; intros; done.
Qed.

Lemma pods_return_upd p n w : upd w (pods_return p n w).2.
Proof.
  enough (Hp : preserves (upd w) (pods_return p n)) by exact (Hp w (upd_refl w)).
  apply preserves_pods_return.
  - intros w' r h Hu _ _. by apply upd_then_calls.
  - intros w' r h Hu _ _. by apply upd_then_calls.
  - intros k x w' r Hu Hr Hk. apply upd_then_write; [done..|].
    destruct Hk as [->|[-> ->]]; repeat split; intros; try done. by right.
Qed.

Lemma same_deleted_refl w : same_deleted w w.
Proof. intros n r Hr. eauto. Qed.

Lemma same_deleted_trans w1 w2 w3 :
  same_deleted w1 w2 -> same_deleted w2 w3 -> same_deleted w1 w3.
Proof.
  intros H1 H2 n r Hr. destruct (H1 n r Hr) as (r' & Hr' & Hd).
  destruct (H2 n r' Hr') as (r'' & Hr'' & Hd'). exists r''. split; congruence.
Qed.

Lemma same_deleted_write w0 w n r k x :
  same_deleted w0 w -> job_db w !! n = Some r -> k <> "deleted" ->
  same_deleted w0 (World (<[n := <[k := x]> r]> (job_db w)) (calls w)).
Proof.
  intros H0 Hr Hk n' r' Hr'. destruct (H0 n' r' Hr') as (r1 & Hr1 & Hd). simpl.
  destruct (decide (n = n')) as [->|Hne].
  - rewrite lookup_insert_eq. eexists; split; [done|].
    rewrite lookup_insert_ne by done. congruence.
  - rewrite lookup_insert_ne by done. eauto.
Qed.

(** The pod reconciler never assigns ['deleted']. *)
Lemma watch_pods_event_same_deleted v p w :
  same_deleted w (watch_pods_event v p w).2.
Proof.
  enough (Hp : preserves (same_deleted w) (watch_pods_event v p))
    by exact (Hp w (same_deleted_refl w)).
  apply preserves_watch_pods_event; try (by intros).
  - intros w' r Hw' Hr _. by apply same_deleted_write.
  - intros k x w' r Hw' Hr Hk. apply same_deleted_write; [done..|].
    destruct Hk as [->|[->|[-> _]]]; done.
Qed.

Lemma pods_event_same_deleted v p w : same_deleted w (pods_event v p w).2.
Proof.
  enough (Hp : preserves (same_deleted w) (pods_event v p))
    by exact (Hp w (same_deleted_refl w)).
  apply preserves_pods_event; try (by intros).
  - intros w' r Hw' Hr _. by apply same_deleted_write.
  - intros x w' r Hw' Hr. by apply same_deleted_write.
Qed.

Lemma pods_return_same_deleted p n w : same_deleted w (pods_return p n w).2.
Proof.
  enough (Hp : preserves (same_deleted w) (pods_return p n))
    by exact (Hp w (same_deleted_refl w)).
  apply preserves_pods_return; try (by intros).
  intros k x w' r Hw' Hr Hk. apply same_deleted_write; [done..|].
  destruct Hk as [->|[-> _]]; done.
Qed.

Lemma watch_jobs_event_upd e w : upd w (watch_jobs_event e w).2.
Proof.
  destruct (watch_jobs_event_effect e w) as [->|(r & x & Hr & _ & Hx & ->)];
    [apply upd_refl|].
  eapply upd_trans; [apply (upd_write w _ r "status" x Hr) |].
  - repeat split; intros; done.
  - exact (upd_calls (World (<[job_name e := <["status" := x]> r]> (job_db w))
                            (calls w)) [JobDelete (job_name e)]).
Qed.

Lemma wait_pod_poll_world n w : (wait_pod_poll n w).2 = w.
Proof.
  unfold wait_pod_poll, bind, db_get_truthy, db_item, bind, ret.
  destruct (job_db w !! n) as [r|]; simpl; [|done].
  by destruct (get_truthy r "pod").
Qed.

(** The second loop only talks to the backend. *)
Lemma wait_gone_poll_db n b w :
  job_db (wait_gone_poll n b w).2 = job_db w /\
  exists cs, calls (wait_gone_poll n b w).2 = (calls w ++ cs)%list.
Proof.
  set (J := fun w' => job_db w' = job_db w /\
                      exists cs, calls w' = (calls w ++ cs)%list).
  enough (Hp : preserves J (wait_gone_poll n b)).
  { apply Hp. split; [done|]. exists []. by rewrite app_nil_r. }
  assert (Hcalls : forall w' c, J w' -> J (World (job_db w') (calls w' ++ [c]))).
  { intros w' c [Hd [cs Hc]]. split; [done|]. exists (cs ++ [c])%list.
    cbn [calls]. by rewrite Hc, app_assoc. }
  unfold wait_gone_poll.
  apply preserves_bind; [apply preserves_backend; auto | intros _].
  destruct b; [apply preserves_ret|].
  apply preserves_bind; [apply preserves_db_field | intros x].
  apply preserves_bind; [apply preserves_name_attr | intros _].
  apply preserves_bind; [apply preserves_db_field | intros x'].
  apply preserves_bind; [apply preserves_delete_method; auto | intros _].
  apply preserves_ret.
Qed.

Lemma wait_gone_poll_upd n b w : upd w (wait_gone_poll n b w).2.
Proof.
  destruct (wait_gone_poll_db n b w) as [Hd [cs Hc]].
  destruct (wait_gone_poll n b w) as [o [db' cs']]. simpl in *. subst db' cs'.
  apply upd_calls.
Qed.

Lemma tombstone_effect n w :
  tombstone n w = (Raise KeyError, w) /\ job_db w !! n = None \/
  exists r, job_db w !! n = Some r /\
    tombstone n w =
      (Ok JIdle, World (<[n := <["deleted" := VBool true]> r]> (job_db w)) (calls w)).
Proof.
  unfold tombstone, bind, db_set, ret.
  destruct (job_db w !! n) as [r|] eqn:Hr; [right; eauto | by left].
Qed.

Lemma tombstone_upd n w : upd w (tombstone n w).2.
Proof.
  destruct (tombstone_effect n w) as [[-> _]|(r & Hr & ->)]; [apply upd_refl|].
  apply upd_write; [done|]. repeat split; intros; done.
Qed.

Lemma jobs_resume_world r s : sys_world (jobs_resume r s) = r.2.
Proof. by destruct r as [[pc|e] w]. Qed.

Lemma pods_resume_world r s : sys_world (pods_resume r s) = r.2.
Proof. by destruct r as [[pc|e] w]. Qed.

Lemma step_upd v a s : upd (sys_world s) (sys_world (step v a s)).
Proof.
  destruct a as [p| |e|b| ]; simpl.
  - destruct (pods_thread s); try apply upd_refl.
    rewrite pods_resume_world. apply pods_event_upd.
  - destruct (pods_thread s); try apply upd_refl.
    rewrite pods_resume_world. apply pods_return_upd.
  - destruct (jobs_thread s); try apply upd_refl.
    rewrite jobs_resume_world. apply watch_jobs_event_upd.
  - destruct (jobs_thread s); try apply upd_refl; rewrite jobs_resume_world.
    + rewrite wait_pod_poll_world. apply upd_refl.
    + apply wait_gone_poll_upd.
  - destruct (jobs_thread s); try apply upd_refl.
    rewrite jobs_resume_world. apply tombstone_upd.
Qed.

Lemma exec_upd v sched s : upd (sys_world s) (sys_world (exec v sched s)).
Proof.
  revert s. induction sched as [|a sched IH]; intros s; simpl; [apply upd_refl|].
  eapply upd_trans; [apply step_upd | apply IH].
Qed.

(** ** The handler of [watch_pods] and its two pieces *)

Lemma watch_pods_event_uninterrupted v p w :
  watch_pods_event v p w = pods_uninterrupted v p w.
Proof.
  unfold pods_uninterrupted, pods_event, pods_return, watch_pods_event,
    try_except_KeyError, pods_try, take_note, take_note_before_logs,
    take_note_after_logs, bind, lift, ret.
  destruct (unended_jobs unended_for_pods w) as [[l|e] w0]; [|done].
  destruct (store_pod p (job_name_of_pod (pod_name p)) w0) as [[[]|e] w1]; [|done].
  case_bool_decide; [|done].
  destruct (read_restarts p) as [k|[]]; try done.
  destruct (read_exit_code p) as [c|[]]; try done.
  destruct (db_set _ "restart_count" (VInt k) w1) as [[[]|[]] w2]; try done.
  destruct (db_field _ "max_restart_count" w2) as [[m|[]] w3]; try done.
  destruct (int_ge v k m) as [[|]|[]]; try done.
  - destruct (exit_code_gt_0 v c) as [[|]|[]]; try done.
    destruct (backend (PodLogs (pod_name p)) w3) as [[[]|[]] w5]; try done.
    destruct (db_set _ "log" _ w5) as [[[]|[]] w6]; try done.
    destruct (db_set _ "status" _ w6) as [[[]|[]] w7]; try done.
    destruct (db_field _ "obj" w7) as [[o|[]] w8]; try done.
    destruct (delete_method o w8) as [[[]|[]] w9]; done.
Qed.

(** ** Status transitions and the tombstone (C1) *)


(** The guard of an escalation is not evaluated again after
    [pod.logs()]: when the deletion of the workload is confirmed while
    [watch_pods] waits for the log, the record is tombstoned first and set
    to ['failed'] afterwards. *)
Example status_written_after_tombstone :
  let s := exec Py3 [PodEvent crashed_pod; JobEvent deletion_event;
                     JobPoll false; JobPoll false; JobReturn]
                (sample_system sample_record) in
  (job_db (sys_world s) !! "job") ≫= (.!! "deleted") = Some (VBool true) /\
  (job_db (sys_world s) !! "job") ≫= (.!! "status") = Some (VStr "started") /\
  pods_thread s = PLogs crashed_pod "job" /\
  (job_db (sys_world (exec Py3 [PodReturn] s)) !! "job") ≫= (.!! "status")
    = Some (VStr "failed").
Proof. repeat split; vm_compute; reflexivity. Qed.


















(** ** The pod reference is written once (C6) *)

(** C6: a pod reference held by a record is still the one it holds
    after any sequence of pod events, workload events and polls,
    including events of other pods that correlate to the same job. *)
Theorem pod_reference_never_replaced v sched s n r p :
  job_db (sys_world s) !! n = Some r ->
  r !! "pod" = Some (VPod p) ->
  exists r', job_db (sys_world (exec v sched s)) !! n = Some r' /\
             r' !! "pod" = Some (VPod p).
Proof.
  intros Hr Hp. destruct (exec_upd v sched s) as (_ & Hrec & _).
  destruct (Hrec n r Hr) as (r' & Hr' & Hpod & _).
  exists r'. split; [done|]. destruct Hpod as [Hpod|[Ht _]]; [congruence|].
  unfold get_truthy in Ht. rewrite Hp in Ht. discriminate.
Qed.

Lemma pod_reference_never_replaced_witness :
  exists r',
    job_db (sys_world (exec Py3 [PodEvent crashed_pod]
              (sample_system (<["pod" := VPod "job-abcde"]> sample_record))))
      !! "job" = Some r' /\
    r' !! "pod" = Some (VPod "job-abcde").
Proof.
  apply (pod_reference_never_replaced Py3 [PodEvent crashed_pod]
           (sample_system (<["pod" := VPod "job-abcde"]> sample_record))
           "job" (<["pod" := VPod "job-abcde"]> sample_record) "job-abcde");
    vm_compute; reflexivity.
Defined.

(** ** Running the building blocks on known states *)

Lemma store_pod_attached p n w r :
  job_db w !! n = Some r -> get_truthy r "pod" = true ->
  store_pod p n w = (Ok tt, w).
Proof.
  intros Hr Ht. destruct (store_pod_effect p n w) as [?|(r' & Hr' & Ht' & _)]; [done|].
  congruence.
Qed.

Lemma store_pod_unknown p n w :
  job_db w !! n = None -> store_pod p n w = (Ok tt, w).
Proof.
  intros Hr. destruct (store_pod_effect p n w) as [?|(r' & Hr' & _)]; [done|].
  congruence.
Qed.

(** On a well-formed table the comprehension of [watch_pods] selects
    exactly the records that are neither tombstoned nor failed. *)
Lemma unended_for_pods_ok w :
  table_ok (job_db w) ->
  exists l, unended_jobs unended_for_pods w = (Ok l, w) /\
    forall j, j ∈ l <-> exists r, job_db w !! j = Some r /\ unended_for_pods r = Ok true.
Proof.
  intros Hok. apply unended_jobs_complete.
  intros n r Hr. by eapply unended_for_pods_total.
Qed.

Lemma unended_for_jobs_ok w :
  table_ok (job_db w) ->
  exists l, unended_jobs unended_for_jobs w = (Ok l, w) /\
    forall j, j ∈ l <-> exists r, job_db w !! j = Some r /\ unended_for_jobs r = Ok true.
Proof.
  intros Hok. apply unended_jobs_complete.
  intros n r Hr. by eapply unended_for_jobs_total.
Qed.

Lemma upd_table_ok w w' : upd w w' -> table_ok (job_db w) -> table_ok (job_db w').
Proof.
  intros (Hnone & Hrec & _) Hok n r' Hr'.
  destruct (job_db w !! n) as [r|] eqn:Hr.
  - destruct (Hrec n r Hr) as (r1 & Hr1 & _ & _ & Hs & Hd).
    rewrite Hr' in Hr1. inversion Hr1; subst r1.
    destruct (Hok n r Hr) as [Hdel Hst]. split.
    + destruct Hd as [->| ->]; eauto.
    + destruct Hs as [->|[->| ->]]; eauto.
  - rewrite (Hnone n Hr) in Hr'. discriminate.
Qed.

(** A pod event about a job that is unknown, or that is no longer active
    and already holds a pod reference, changes nothing. *)
Lemma watch_pods_event_inactive v p w :
  table_ok (job_db w) ->
  (forall r, job_db w !! job_name_of_pod (pod_name p) = Some r ->
     unended_for_pods r = Ok false /\ get_truthy r "pod" = true) ->
  watch_pods_event v p w = (Ok tt, w).
Proof.
  intros Hok Hin. unfold watch_pods_event.
  destruct (unended_for_pods_ok w Hok) as (l & Hl & Hmem).
  rewrite (bind_ok _ _ _ _ _ Hl).
  set (n := job_name_of_pod (pod_name p)) in *.
  assert (Hn : n ∉ l).
  { intros Hn. apply Hmem in Hn as (r & Hr & Hu).
    destruct (Hin r Hr) as [Hf _]. congruence. }
  assert (Hs : store_pod p n w = (Ok tt, w)).
  { destruct (job_db w !! n) as [r|] eqn:Hr.
    - apply (store_pod_attached _ _ _ r); [done|]. by apply Hin.
    - by apply store_pod_unknown. }
  rewrite (bind_ok _ _ _ _ _ Hs). by rewrite bool_decide_eq_false_2.
Qed.

Lemma store_pod_known p n w r :
  job_db w !! n = Some r ->
  store_pod p n w = (Ok tt, World (<[n := attach p r]> (job_db w)) (calls w)).
Proof.
  intros Hr. unfold attach, store_pod.
  assert (Hm : db_mem n w = (Ok true, w)).
  { unfold db_mem. by rewrite Hr. }
  rewrite (bind_ok _ _ _ _ _ Hm).
  erewrite bind_ok.
  2:{ erewrite bind_ok by (by apply db_get_truthy_ok). reflexivity. }
  destruct (get_truthy r "pod"); simpl.
  - rewrite insert_id by done. by destruct w.
  - by apply db_set_ok.
Qed.

Lemma attach_other p r k : k <> "pod" -> attach p r !! k = r !! k.
Proof.
  intros Hk. unfold attach. destruct (get_truthy r "pod"); [done|].
  by rewrite lookup_insert_ne.
Qed.

Lemma attach_truthy p r : get_truthy (attach p r) "pod" = true.
Proof.
  unfold attach. destruct (get_truthy r "pod") eqn:Ht; [done|].
  unfold get_truthy. by rewrite lookup_insert_eq.
Qed.

(** ** Failure escalation (C2) *)

(** C2: a pod event about an active job that reports at least
    [max_restart_count] restarts and a positive exit code stores the pod
    log, sets the status to ['failed'] and calls [delete()] on the
    workload handle; the backend sees exactly [pod.logs()] and that one
    deletion, and delivering the same event again, any number of times,
    changes neither the table nor the trace. *)
Theorem escalation_happens_once v p w r maxr h restarts code :
  table_ok (job_db w) ->
  job_db w !! job_name_of_pod (pod_name p) = Some r ->
  unended_for_pods r = Ok true ->
  r !! "max_restart_count" = Some (VInt maxr) ->
  r !! "obj" = Some (VJob h) ->
  read_restarts p = Ok restarts ->
  read_exit_code p = Ok (Some code) ->
  (maxr <= restarts)%Z ->
  (0 < code)%Z ->
  exists r',
    let w' := World (<[job_name_of_pod (pod_name p) := r']> (job_db w))
                    (calls w ++ [PodLogs (pod_name p); JobDelete h]) in
    watch_pods_event v p w = (Ok tt, w') /\
    r' !! "log" = Some (VStr (pod_logs p)) /\
    r' !! "status" = Some (VStr "failed") /\
    r' !! "restart_count" = Some (VInt restarts) /\
    forall k, watch_pods v (replicate k p) w' = (Ok tt, w').
Proof.
  intros Hok Hr Hact Hmax Hobj Hrest Hexit Hge Hpos.
  set (n := job_name_of_pod (pod_name p)) in *.
  set (r1 := attach p r).
  set (r2 := <["restart_count" := VInt restarts]> r1).
  set (r3 := <["log" := VStr (pod_logs p)]> r2).
  set (r4 := <["status" := VStr "failed"]> r3).
  exists r4.
  assert (Hrun : watch_pods_event v p w =
            (Ok tt, World (<[n := r4]> (job_db w))
                          (calls w ++ [PodLogs (pod_name p); JobDelete h]))).
  { unfold watch_pods_event.
    destruct (unended_for_pods_ok w Hok) as (l & Hl & Hmem).
    rewrite (bind_ok _ _ _ _ _ Hl). fold n.
    rewrite (bind_ok _ _ _ _ _ (store_pod_known p n w r Hr)). fold r1.
    rewrite bool_decide_eq_true_2 by (apply Hmem; eauto).
    unfold try_except_KeyError, take_note.
    rewrite Hrest, Hexit. unfold lift at 1 2. unfold bind at 1 2.
    erewrite bind_ok by (apply db_set_ok; cbn [job_db]; apply lookup_insert_eq).
    fold r2. cbn [job_db calls]. rewrite insert_insert_eq.
    erewrite bind_ok.
    2:{ eapply db_field_ok; [cbn [job_db]; apply lookup_insert_eq|].
        unfold r2. rewrite lookup_insert_ne by done.
        unfold r1. rewrite attach_other by done. exact Hmax. }
    unfold int_ge, exit_code_gt_0, lift, bind at 1 2.
    rewrite (proj2 (Z.leb_le maxr restarts) Hge).
    rewrite (proj2 (Z.ltb_lt 0 code) Hpos).
    unfold bind at 1, backend at 1. cbn [job_db calls].
    erewrite bind_ok by (apply db_set_ok; cbn [job_db]; apply lookup_insert_eq).
    fold r3. cbn [job_db calls]. rewrite insert_insert_eq.
    erewrite bind_ok by (apply db_set_ok; cbn [job_db]; apply lookup_insert_eq).
    fold r4. cbn [job_db calls]. rewrite insert_insert_eq.
    erewrite bind_ok.
    2:{ eapply db_field_ok; [cbn [job_db]; apply lookup_insert_eq|].
        unfold r4, r3, r2. rewrite !lookup_insert_ne by done.
        unfold r1. rewrite attach_other by done. exact Hobj. }
    unfold delete_method, backend. cbn [job_db calls]. by rewrite <- app_assoc. }
  split; [exact Hrun|].
  split; [unfold r4, r3; rewrite lookup_insert_ne by done; apply lookup_insert_eq|].
  split; [unfold r4; by rewrite lookup_insert_eq|].
  split; [unfold r4, r3, r2; rewrite !lookup_insert_ne by done; apply lookup_insert_eq|].
  set (w' := World (<[n := r4]> (job_db w))
                   (calls w ++ [PodLogs (pod_name p); JobDelete h])) in *.
  assert (Hok' : table_ok (job_db w')).
  { eapply upd_table_ok; [|exact Hok].
    pose proof (watch_pods_event_upd v p w) as Hu. by rewrite Hrun in Hu. }
  assert (Hidle : watch_pods_event v p w' = (Ok tt, w')).
  { apply watch_pods_event_inactive; [done|]. fold n. intros r' Hr'.
    unfold w' in Hr'. simpl in Hr'. rewrite lookup_insert_eq in Hr'.
    inversion Hr'; subst r'. split.
    - unfold unended_for_pods, r4.
      rewrite lookup_insert_ne by done. rewrite lookup_insert_eq.
      unfold r3, r2. rewrite !lookup_insert_ne by done.
      unfold r1. rewrite attach_other by done.
      unfold unended_for_pods in Hact.
      destruct (r !! "deleted") as [d|]; [|done].
      by destruct (truthy d).
    - unfold get_truthy, r4, r3, r2. rewrite !lookup_insert_ne by done.
      apply attach_truthy. }
  intros k. induction k as [|k IH]; [done|].
  simpl. by rewrite (bind_ok _ _ _ _ _ Hidle).
Qed.

Lemma table_ok_singleton n r :
  is_Some (r !! "deleted") -> is_Some (r !! "status") -> table_ok {[ n := r ]}.
Proof.
  intros Hd Hs n' r' H. apply lookup_singleton_Some in H as [_ <-]. done.
Qed.

Lemma escalation_happens_once_witness :
  exists r',
    let w' := World (<[job_name_of_pod (pod_name crashed_pod) := r']>
                       (job_db (sample_world sample_record)))
                    (calls (sample_world sample_record)
                       ++ [PodLogs (pod_name crashed_pod); JobDelete "job"]) in
    watch_pods_event Py3 crashed_pod (sample_world sample_record) = (Ok tt, w') /\
    r' !! "log" = Some (VStr (pod_logs crashed_pod)) /\
    r' !! "status" = Some (VStr "failed") /\
    r' !! "restart_count" = Some (VInt 3) /\
    forall k, watch_pods Py3 (replicate k crashed_pod) w' = (Ok tt, w').
Proof.
  apply (escalation_happens_once Py3 crashed_pod (sample_world sample_record)
           sample_record 3 "job" 3 1).
  - apply table_ok_singleton; vm_compute; eauto.
  - vm_compute. reflexivity.
  - vm_compute. reflexivity.
  - vm_compute. reflexivity.
  - vm_compute. reflexivity.
  - reflexivity.
  - reflexivity.
  - lia.
  - lia.
Defined.

(** ** Workload events about terminal jobs (C3) *)

(** C3, as stated, fails: the workload reconciler skips tombstoned
    records only.  A completion event replayed for a job that is already
    ['succeeded'] (and not tombstoned yet) calls [job.delete()] again,
    once per replay. *)
Lemma completion_replayed_deletes_again :
  sample_succeeded !! "status" = Some (VStr "succeeded") /\
  calls (sys_world (exec Py3 [JobEvent completion_event]
                      (sample_system sample_succeeded)))
    = [JobDelete "job"] /\
  calls (sys_world (exec Py3 [JobEvent completion_event; JobEvent completion_event]
                      (sample_system sample_succeeded)))
    = [JobDelete "job"; JobDelete "job"].
Proof. repeat split; vm_compute; reflexivity. Qed.

Lemma watch_jobs_event_tombstoned e w :
  table_ok (job_db w) ->
  (forall r, job_db w !! job_name e = Some r -> unended_for_jobs r = Ok false) ->
  watch_jobs_event e w = (Ok JIdle, w).
Proof.
  intros Hok Hin. unfold watch_jobs_event.
  destruct (unended_for_jobs_ok w Hok) as (l & Hl & Hmem).
  rewrite (bind_ok _ _ _ _ _ Hl).
  rewrite bool_decide_eq_false_2; [done|].
  intros Hn. apply Hmem in Hn as (r & Hr & Hu). specialize (Hin r Hr). congruence.
Qed.

(** C3 (amended): a workload event whose job is tombstoned leaves the
    whole system as it is (no record changes, no backend call), and so
    does any sequence of such events, duplicates and replays included.
    Records that are ['succeeded'] or ['failed'] but not tombstoned are
    still processed. *)
Theorem tombstoned_job_events_ignored v es s :
  jobs_thread s = JIdle ->
  table_ok (job_db (sys_world s)) ->
  (forall e, e ∈ es ->
     exists r d, job_db (sys_world s) !! job_name e = Some r /\
                 r !! "deleted" = Some d /\ truthy d = true) ->
  exec v (JobEvent <$> es) s = s.
Proof.
  intros Hidle Hok. induction es as [|e es IH]; intros Hes; [done|].
  simpl. rewrite Hidle.
  rewrite watch_jobs_event_tombstoned; [| done |].
  - assert (Hs : jobs_resume (Ok JIdle, sys_world s) s = s).
    { destruct s as [w pc pt]. simpl in *. by subst pc. }
    rewrite Hs. apply IH. intros e' He'. apply Hes. by right.
  - intros r Hr. destruct (Hes e) as (r' & d & Hr' & Hd & Ht); [left|].
    rewrite Hr in Hr'. inversion Hr'; subst r'.
    unfold unended_for_jobs. by rewrite Hd, Ht.
Qed.

Lemma tombstoned_job_events_ignored_witness :
  exec Py3 (JobEvent <$> [completion_event; deletion_event; completion_event])
       (sample_system (<["deleted" := VBool true]> sample_succeeded))
  = sample_system (<["deleted" := VBool true]> sample_succeeded).
Proof.
  apply (tombstoned_job_events_ignored Py3
           [completion_event; deletion_event; completion_event]
           (sample_system (<["deleted" := VBool true]> sample_succeeded))).
  - reflexivity.
  - apply table_ok_singleton; vm_compute; eauto.
  - intros e He. exists (<["deleted" := VBool true]> sample_succeeded), (VBool true).
    assert (Hn : job_name e = "job").
    { repeat (apply elem_of_cons in He as [->|He]; [reflexivity|]).
      by apply elem_of_nil in He. }
    rewrite Hn. repeat split; vm_compute; reflexivity.
Defined.

(** ** Pod events with a missing or partial status (C5) *)

(** C5, as stated, fails.  A pod event without [containerStatuses] is
    skipped, but not before the pod reference was stored in a record that
    had none: the record changes in ['pod'], not only in
    ['restart_count'].  Moreover the handler only catches [KeyError]: an
    empty [containerStatuses] list raises [IndexError], and under
    Python 3 a waiting container that has reached the restart limit
    compares [None > 0] and raises [TypeError]; either ends the loop. *)
Lemma partial_status_changes_pod_or_raises :
  (sample_record !! "pod" = None /\
   (job_db (watch_pods_event Py3 pending_pod (sample_world sample_record)).2
      !! "job") ≫= (.!! "pod") = Some (VPod "job-x7k2p")) /\
  (watch_pods_event Py2 empty_statuses_pod (sample_world sample_record)).1
    = Raise IndexError /\
  (watch_pods_event Py3 empty_statuses_pod (sample_world sample_record)).1
    = Raise IndexError /\
  (watch_pods_event Py3 backoff_pod (sample_world sample_record)).1
    = Raise TypeError.
Proof. repeat split; vm_compute; reflexivity. Qed.

Lemma read_exit_code_KeyError p e :
  read_exit_code p = Raise KeyError -> read_restarts p = Raise e -> e = KeyError.
Proof.
  unfold read_exit_code, read_restarts.
  destruct (first_container_status p) as [c|e'].
  - intros _. destruct (restartCount c); congruence.
  - congruence.
Qed.

(** A missing key ends the [try] block before anything is written. *)
Lemma take_note_missing_key v p n w :
  read_restarts p = Raise KeyError \/ read_exit_code p = Raise KeyError ->
  try_except_KeyError (take_note v p n) w = (Ok tt, w).
Proof.
  intros Hmiss. unfold try_except_KeyError, take_note, bind, lift.
  destruct Hmiss as [Hrest|Hexit].
  - by rewrite Hrest.
  - rewrite Hexit. destruct (read_restarts p) as [k|e] eqn:Hrest; [done|].
    by rewrite (read_exit_code_KeyError p e Hexit Hrest).
Qed.

(** Without an exit code the [try] block records the restart count and
    stops at the comparison: below the limit, or, under Python 2, at
    [None > 0]. *)
Lemma take_note_no_exit_code v p n w r k :
  job_db w !! n = Some r ->
  read_restarts p = Ok k ->
  read_exit_code p = Ok None ->
  v = Py2 \/ (exists m, r !! "max_restart_count" = Some (VInt m) /\ (k < m)%Z) ->
  try_except_KeyError (take_note v p n) w =
    (Ok tt, World (<[n := <["restart_count" := VInt k]> r]> (job_db w)) (calls w)).
Proof.
  intros Hr Hrest Hexit Hlim. unfold try_except_KeyError, take_note.
  rewrite Hrest, Hexit. unfold lift at 1 2. unfold bind at 1 2.
  rewrite (bind_ok _ _ _ _ _ (db_set_ok n "restart_count" (VInt k) w r Hr)).
  set (w1 := World _ _).
  assert (Hr1 : job_db w1 !! n = Some (<["restart_count" := VInt k]> r))
    by apply lookup_insert_eq.
  unfold db_field. unfold bind at 1 2. unfold db_item. rewrite Hr1.
  rewrite lookup_insert_ne by done.
  destruct (r !! "max_restart_count") as [x|] eqn:Hx; [|done].
  unfold ret at 1, lift at 1, bind at 1.
  destruct Hlim as [->|(m & Hm & Hlt)].
  - unfold int_ge, exit_code_gt_0, bind, lift, ret.
    destruct x as [|[|]|m|?|?|?|?|?]; try done; by destruct (_ <=? _)%Z.
  - inversion Hm; subst x. unfold int_ge.
    rewrite (proj2 (Z.leb_gt m k) Hlt). done.
Qed.

(** C5 (amended): a pod event in which a key that [watch_pods]
    subscripts is missing ([status], [containerStatuses], [restartCount]
    or [state]), or whose container has no exit code while the event is
    handled by Python 2 or reports fewer restarts than the record's
    limit, is handled without an exception and without a backend call,
    and the loop goes on with the next event.  The table changes in the
    record of the pod's job only, if there is one: the record gets the
    pod reference unless it holds one, and it gets the reported
    [restart_count] exactly when no key is missing and the job is neither
    tombstoned nor ['failed']. *)
Theorem partial_status_is_skipped v p w rest :
  table_ok (job_db w) ->
  (read_restarts p = Raise KeyError \/
   read_exit_code p = Raise KeyError \/
   (read_exit_code p = Ok None /\
    exists k, read_restarts p = Ok k /\
      (v = Py2 \/
       forall r, job_db w !! job_name_of_pod (pod_name p) = Some r ->
         exists m, r !! "max_restart_count" = Some (VInt m) /\ (k < m)%Z))) ->
  exists w',
    watch_pods_event v p w = (Ok tt, w') /\
    watch_pods v (p :: rest) w = watch_pods v rest w' /\
    calls w' = calls w /\
    (job_db w !! job_name_of_pod (pod_name p) = None -> job_db w' = job_db w) /\
    (forall r, job_db w !! job_name_of_pod (pod_name p) = Some r ->
       (read_restarts p = Raise KeyError \/ read_exit_code p = Raise KeyError \/
        unended_for_pods r = Ok false ->
        job_db w' = <[job_name_of_pod (pod_name p) := attach p r]> (job_db w)) /\
       (forall k, read_restarts p = Ok k -> read_exit_code p = Ok None ->
          unended_for_pods r = Ok true ->
          job_db w' =
            <[job_name_of_pod (pod_name p) :=
                <["restart_count" := VInt k]> (attach p r)]> (job_db w))).
Proof.
  intros Hok Hpartial.
  set (n := job_name_of_pod (pod_name p)) in *.
  enough (Hev : exists w',
    watch_pods_event v p w = (Ok tt, w') /\
    calls w' = calls w /\
    (job_db w !! n = None -> job_db w' = job_db w) /\
    (forall r, job_db w !! n = Some r ->
       (read_restarts p = Raise KeyError \/ read_exit_code p = Raise KeyError \/
        unended_for_pods r = Ok false ->
        job_db w' = <[n := attach p r]> (job_db w)) /\
       (forall k, read_restarts p = Ok k -> read_exit_code p = Ok None ->
          unended_for_pods r = Ok true ->
          job_db w' = <[n := <["restart_count" := VInt k]> (attach p r)]> (job_db w)))).
  { destruct Hev as (w' & Hrun & Hrest). exists w'. split; [done|].
    split; [|done]. simpl. by rewrite (bind_ok _ _ _ _ _ Hrun). }
  unfold watch_pods_event.
  destruct (unended_for_pods_ok w Hok) as (l & Hl & Hmem).
  rewrite (bind_ok _ _ _ _ _ Hl). fold n.
  destruct (job_db w !! n) as [r|] eqn:Hr.
  2:{ rewrite (bind_ok _ _ _ _ _ (store_pod_unknown p n w Hr)).
      rewrite bool_decide_eq_false_2.
      - exists w. repeat split; try done.
      - intros Hn. apply Hmem in Hn as (r & Hr' & _). congruence. }
  rewrite (bind_ok _ _ _ _ _ (store_pod_known p n w r Hr)).
  set (w1 := World (<[n := attach p r]> (job_db w)) (calls w)).
  case_bool_decide as Hn.
  2:{ exists w1. split; [done|]. split; [done|]. split; [done|].
      intros r' [= <-]. split; [done|]. intros k _ _ Hu.
      destruct Hn. apply Hmem. eauto. }
  apply Hmem in Hn as (r0 & Hr0 & Hact). rewrite Hr in Hr0. inversion Hr0; subst r0.
  destruct Hpartial as [Hrest|[Hexit|(Hexit & k & Hrest & Hlim)]].
  - rewrite take_note_missing_key by auto.
    exists w1. split; [done|]. split; [done|]. split; [done|].
    intros r' [= <-]. split; [done|]. intros k Hk. congruence.
  - rewrite take_note_missing_key by auto.
    exists w1. split; [done|]. split; [done|]. split; [done|].
    intros r' [= <-]. split; [done|]. intros k _ Hk. congruence.
  - rewrite (take_note_no_exit_code v p n w1 (attach p r) k);
      [| apply lookup_insert_eq | done | done |].
    + subst w1. cbn [job_db calls]. rewrite insert_insert_eq.
      eexists. split; [reflexivity|]. split; [done|]. split; [done|].
      intros r' [= <-]. cbn [job_db]. split.
      * intros [?|[?|?]]; congruence.
      * intros k' Hk' _ _. congruence.
    + destruct Hlim as [->|Hlim]; [by left | right].
      destruct (Hlim r eq_refl) as (m & Hm & Hlt). exists m.
      by rewrite attach_other.
Qed.

Lemma partial_status_is_skipped_witness :
  exists w',
    watch_pods_event Py3 restarting_pod (sample_world sample_record) = (Ok tt, w') /\
    watch_pods Py3 (restarting_pod :: [pending_pod]) (sample_world sample_record)
      = watch_pods Py3 [pending_pod] w' /\
    calls w' = calls (sample_world sample_record) /\
    (job_db (sample_world sample_record) !! job_name_of_pod (pod_name restarting_pod)
       = None ->
     job_db w' = job_db (sample_world sample_record)) /\
    (forall r,
       job_db (sample_world sample_record) !! job_name_of_pod (pod_name restarting_pod)
         = Some r ->
       (read_restarts restarting_pod = Raise KeyError \/
        read_exit_code restarting_pod = Raise KeyError \/
        unended_for_pods r = Ok false ->
        job_db w' = <[job_name_of_pod (pod_name restarting_pod) :=
                        attach restarting_pod r]>
                      (job_db (sample_world sample_record))) /\
       (forall k, read_restarts restarting_pod = Ok k ->
          read_exit_code restarting_pod = Ok None ->
          unended_for_pods r = Ok true ->
          job_db w' =
            <[job_name_of_pod (pod_name restarting_pod) :=
                <["restart_count" := VInt k]> (attach restarting_pod r)]>
              (job_db (sample_world sample_record)))).
Proof.
  apply (partial_status_is_skipped Py3 restarting_pod (sample_world sample_record)
           [pending_pod]).
  - apply table_ok_singleton; vm_compute; eauto.
  - right. right. split; [reflexivity|]. exists 2%Z. split; [reflexivity|].
    right. intros r Hr. vm_compute in Hr. inversion Hr; subst r.
    exists 3%Z. split; [vm_compute; reflexivity | lia].
Defined.

(** The restart count of the same event, recorded in the sample
    record. *)
Example restarting_pod_noted :
  (job_db (watch_pods_event Py3 restarting_pod (sample_world sample_record)).2
     !! "job") ≫= (.!! "restart_count") = Some (VInt 2) /\
  sample_record !! "restart_count" = Some (VInt 0).
Proof. split; vm_compute; reflexivity. Qed.

(** ** Deletion confirmation waits for the pod and for the backend *)

Lemma wait_pod_poll_ok n w r :
  job_db w !! n = Some r ->
  wait_pod_poll n w =
    (Ok (if get_truthy r "pod" then JWaitGone n else JWaitPod n), w).
Proof.
  intros Hr. unfold wait_pod_poll.
  rewrite (bind_ok _ _ _ _ _ (db_get_truthy_ok n "pod" w r Hr)).
  by destruct (get_truthy r "pod").
Qed.

Lemma wait_gone_poll_true n w :
  wait_gone_poll n true w =
    (Ok (JWaitGone n), World (job_db w) (calls w ++ [JobExists n true])).
Proof. reflexivity. Qed.

Lemma wait_gone_poll_false n w r p :
  job_db w !! n = Some r -> r !! "pod" = Some (VPod p) ->
  wait_gone_poll n false w =
    (Ok (JDeletingPod n),
     World (job_db w) (calls w ++ [JobExists n false; PodDelete p])).
Proof.
  intros Hr Hp. unfold wait_gone_poll.
  unfold bind at 1, backend at 1.
  erewrite bind_ok by (eapply db_field_ok; [exact Hr | exact Hp]).
  unfold name_attr, bind at 1, ret at 1.
  erewrite bind_ok by (eapply db_field_ok; [exact Hr | exact Hp]).
  unfold delete_method, bind, backend, ret. cbn [job_db calls].
  by rewrite <- app_assoc.
Qed.

Lemma tombstone_ok n w r :
  job_db w !! n = Some r ->
  tombstone n w =
    (Ok JIdle, World (<[n := <["deleted" := VBool true]> r]> (job_db w)) (calls w)).
Proof.
  intros Hr. destruct (tombstone_effect n w) as [[_ Hn]|(r' & Hr' & ->)]; congruence.
Qed.

Lemma watch_jobs_event_deleted e w r :
  table_ok (job_db w) ->
  job_db w !! job_name e = Some r ->
  unended_for_jobs r = Ok true ->
  event_type e = "DELETED" ->
  watch_jobs_event e w = (Ok (JWaitPod (job_name e)), w).
Proof.
  intros Hok Hr Hu Ht. unfold watch_jobs_event.
  destruct (unended_for_jobs_ok w Hok) as (l & Hl & Hmem).
  rewrite (bind_ok _ _ _ _ _ Hl).
  rewrite bool_decide_eq_true_2 by (apply Hmem; eauto).
  by rewrite Ht.
Qed.

Lemma pod_deletes_app cs cs' :
  pod_deletes (cs ++ cs') = (pod_deletes cs ++ pod_deletes cs')%list.
Proof. apply List.filter_app. Qed.

Lemma obj_ok_write db n r k x :
  obj_ok db -> db !! n = Some r -> k <> "obj" ->
  obj_ok (<[n := <[k := x]> r]> db).
Proof.
  intros Hok Hr Hk n' r' p Hr'. destruct (decide (n = n')) as [->|Hne].
  - rewrite lookup_insert_eq in Hr'. inversion Hr'; subst r'.
    rewrite lookup_insert_ne by done. by eapply Hok.
  - rewrite lookup_insert_ne in Hr' by done. by eapply Hok.
Qed.

(** While no record keeps a pod handle under ['obj'], the pod
    reconciler deletes no pod. *)
Lemma watch_pods_event_no_pod_delete v p w :
  obj_ok (job_db w) ->
  obj_ok (job_db (watch_pods_event v p w).2) /\
  pod_deletes (calls (watch_pods_event v p w).2) = pod_deletes (calls w).
Proof.
  intros Hok.
  set (J := fun w' => obj_ok (job_db w') /\
                      pod_deletes (calls w') = pod_deletes (calls w)).
  enough (Hp : preserves J (watch_pods_event v p)) by (apply Hp; by split).
  apply preserves_watch_pods_event.
  - intros w' r [Ho Hc] Hr _. split; [|done]. by apply obj_ok_write.
  - intros w' [Ho Hc]. split; [done|]. cbn [calls].
    rewrite pod_deletes_app. simpl. by rewrite app_nil_r.
  - intros w' r h [Ho Hc] Hr Hobj. split; [done|]. cbn [calls].
    rewrite pod_deletes_app. simpl. by rewrite app_nil_r.
  - intros w' r h [Ho Hc] Hr Hobj. by destruct (Ho _ _ h Hr).
  - intros k x w' r [Ho Hc] Hr Hk. split; [|done].
    apply obj_ok_write; [done..|]. destruct Hk as [->|[->|[-> _]]]; done.
Qed.

Lemma pods_event_no_pod_delete v p w :
  obj_ok (job_db w) ->
  obj_ok (job_db (pods_event v p w).2) /\
  pod_deletes (calls (pods_event v p w).2) = pod_deletes (calls w).
Proof.
  intros Hok.
  set (J := fun w' => obj_ok (job_db w') /\
                      pod_deletes (calls w') = pod_deletes (calls w)).
  enough (Hp : preserves J (pods_event v p)) by (apply Hp; by split).
  apply preserves_pods_event.
  - intros w' r [Ho Hc] Hr _. split; [|done]. by apply obj_ok_write.
  - intros w' [Ho Hc]. split; [done|]. cbn [calls].
    rewrite pod_deletes_app. simpl. by rewrite app_nil_r.
  - intros x w' r [Ho Hc] Hr. split; [|done]. by apply obj_ok_write.
Qed.

Lemma pods_return_no_pod_delete p n w :
  obj_ok (job_db w) ->
  obj_ok (job_db (pods_return p n w).2) /\
  pod_deletes (calls (pods_return p n w).2) = pod_deletes (calls w).
Proof.
  intros Hok.
  set (J := fun w' => obj_ok (job_db w') /\
                      pod_deletes (calls w') = pod_deletes (calls w)).
  enough (Hp : preserves J (pods_return p n)) by (apply Hp; by split).
  apply preserves_pods_return.
  - intros w' r h [Ho Hc] Hr Hobj. split; [done|]. cbn [calls].
    rewrite pod_deletes_app. simpl. by rewrite app_nil_r.
  - intros w' r h [Ho Hc] Hr Hobj. by destruct (Ho _ _ h Hr).
  - intros k x w' r [Ho Hc] Hr Hk. split; [|done].
    apply obj_ok_write; [done..|]. destruct Hk as [->|[-> _]]; done.
Qed.

Lemma confirmed_upd n w w' : upd w w' -> confirmed n w -> confirmed n w'.
Proof.
  intros (_ & Hrec & cs & Hcs) (r & p & cs1 & cs2 & Hr & Hp & Hc).
  destruct (Hrec n r Hr) as (r' & Hr' & Hpod & _).
  exists r', p, cs1, (cs2 ++ cs)%list. split; [done|]. split.
  - destruct Hpod as [Hpod|[Ht _]]; [congruence|].
    unfold get_truthy in Ht. rewrite Hp in Ht. discriminate.
  - rewrite Hcs, Hc. rewrite <- app_assoc. reflexivity.
Qed.

Lemma pod_ok_upd r r' : rec_upd r r' -> pod_ok r -> pod_ok r'.
Proof.
  intros (Hpod & _) Hok. unfold pod_ok, get_truthy in *.
  destruct Hpod as [->|[_ ?]]; auto.
Qed.

Lemma pods_resume_jobs r s : jobs_thread (pods_resume r s) = jobs_thread s.
Proof. by destruct r as [[pc|e] w]. Qed.

(** A step of the pod thread that deletes no pod and leaves the
    ['deleted'] fields alone keeps [watch_jobs] waiting. *)
Lemma waiting_pods_step n cs0 s s' :
  upd (sys_world s) (sys_world s') ->
  same_deleted (sys_world s) (sys_world s') ->
  obj_ok (job_db (sys_world s')) ->
  pod_deletes (calls (sys_world s')) = pod_deletes (calls (sys_world s)) ->
  jobs_thread s' = jobs_thread s ->
  waiting n cs0 s -> waiting n cs0 s'.
Proof.
  intros (_ & Hrec & _) Hsame Hobj' Hdel' Hjt
    ((r & Hr & Hu & Hpod & Hgone) & Hpc & Hobj & Hdel).
  destruct (Hrec n r Hr) as (r' & Hr' & Hupd).
  destruct (Hsame n r Hr) as (r'' & Hr'' & Hd).
  rewrite Hr' in Hr''. inversion Hr''; subst r''.
  repeat split; rewrite ?Hjt; [|done|done|congruence].
  exists r'. split; [done|]. split.
  - unfold unended_for_jobs in *. by rewrite Hd.
  - split; [by eapply pod_ok_upd|]. intros Hg. specialize (Hgone Hg).
    destruct Hupd as ([Hp|[Hf _]] & _); [|congruence].
    unfold get_truthy in *. by rewrite Hp.
Qed.

(** One step keeps the alternative: still waiting with nothing deleted,
    or confirmed. *)
Lemma step_waiting_or_confirmed v a s n cs0 :
  waiting n cs0 s \/ confirmed n (sys_world s) ->
  waiting n cs0 (step v a s) \/ confirmed n (sys_world (step v a s)).
Proof.
  intros [Hw|Hc]; [|right; eapply confirmed_upd; [apply step_upd | done]].
  pose proof Hw as ((r & Hr & Hu & Hpod & Hgone) & Hpc & Hobj & Hdel).
  destruct a as [p| |e|b| ]; simpl.
  - destruct (pods_thread s) eqn:Hpt; try by left.
    left. apply (waiting_pods_step n cs0 s); rewrite ?pods_resume_world; try done.
    + apply pods_event_upd.
    + apply pods_event_same_deleted.
    + by apply pods_event_no_pod_delete.
    + by apply pods_event_no_pod_delete.
    + apply pods_resume_jobs.
  - destruct (pods_thread s) as [|q m|ex] eqn:Hpt; try by left.
    left. apply (waiting_pods_step n cs0 s); rewrite ?pods_resume_world; try done.
    + apply pods_return_upd.
    + apply pods_return_same_deleted.
    + by apply pods_return_no_pod_delete.
    + by apply pods_return_no_pod_delete.
    + apply pods_resume_jobs.
  - left. destruct Hpc as [Hpc|[Hpc|[ex Hpc]]]; rewrite Hpc; done.
  - destruct Hpc as [Hpc|[Hpc|[ex Hpc]]]; rewrite Hpc.
    + rewrite (wait_pod_poll_ok n _ r Hr). simpl. left.
      destruct (get_truthy r "pod") eqn:Ht; repeat split; simpl; eauto.
      exists r. repeat split; try done.
    + destruct b.
      * rewrite wait_gone_poll_true. left.
        repeat split; cbn [jobs_resume sys_world jobs_thread job_db calls]; eauto.
        -- exists r. repeat split; auto.
        -- rewrite pod_deletes_app. simpl. by rewrite app_nil_r.
      * destruct Hpod as [Hf|[p Hp]]; [rewrite (Hgone Hpc) in Hf; discriminate|].
        rewrite (wait_gone_poll_false n _ r p Hr Hp). simpl. right.
        exists r, p, (calls (sys_world s)), []. done.
    + by left.
  - left. destruct Hpc as [Hpc|[Hpc|[ex Hpc]]]; rewrite Hpc; done.
Qed.

Lemma exec_waiting_or_confirmed v sched s n cs0 :
  waiting n cs0 s \/ confirmed n (sys_world s) ->
  waiting n cs0 (exec v sched s) \/ confirmed n (sys_world (exec v sched s)).
Proof.
  revert s. induction sched as [|a sched IH]; intros s H; [done|].
  simpl. apply IH. by apply step_waiting_or_confirmed.
Qed.

Lemma exec_polls_true v k rest n w pt :
  exec v (replicate k (JobPoll true) ++ rest) (System w (JWaitGone n) pt) =
  exec v rest
    (System (World (job_db w) (calls w ++ replicate k (JobExists n true)))
            (JWaitGone n) pt).
Proof.
  revert w. induction k as [|k IH]; intros w.
  - simpl. rewrite app_nil_r. by destruct w.
  - cbn [replicate app exec fold_left step jobs_thread sys_world].
    rewrite wait_gone_poll_true. cbn [jobs_resume pods_thread].
    change (exec v (replicate k (JobPoll true) ++ rest)
              (System (World (job_db w) (calls w ++ [JobExists n true]))
                      (JWaitGone n) pt) = exec v rest
              (System (World (job_db w)
                         (calls w ++ JobExists n true :: replicate k (JobExists n true)))
                      (JWaitGone n) pt)).
    rewrite IH. cbn [job_db calls]. by rewrite <- app_assoc.
Qed.

(** After a deletion-confirmation event for a job that is not
    tombstoned, whatever the pod stream delivers and whatever the backend
    answers, the record is tombstoned or a pod is deleted only once the
    record holds a pod reference and the backend has answered that the
    workload no longer exists, the call that follows that answer being
    the deletion of that very pod.  And once the reference is attached,
    the next poll moves on to [job.exists()], the first negative answer
    deletes the attached pod, and the return of that call sets [deleted]
    to true. *)
Theorem deletion_waits_for_pod_and_absence v s0 e r sched :
  jobs_thread s0 = JIdle ->
  table_ok (job_db (sys_world s0)) ->
  obj_ok (job_db (sys_world s0)) ->
  job_db (sys_world s0) !! job_name e = Some r ->
  unended_for_jobs r = Ok true ->
  pod_ok r ->
  event_type e = "DELETED" ->
  let s := exec v (JobEvent e :: sched) s0 in
  ((tombstoned (job_name e) (sys_world s) \/
    pod_deletes (calls (sys_world s)) <> pod_deletes (calls (sys_world s0))) ->
   confirmed (job_name e) (sys_world s)) /\
  (forall r' p k b,
     jobs_thread s = JWaitPod (job_name e) ->
     job_db (sys_world s) !! job_name e = Some r' ->
     r' !! "pod" = Some (VPod p) ->
     exec v (JobPoll b :: replicate k (JobPoll true) ++ [JobPoll false; JobReturn]) s =
       System (World (<[job_name e := <["deleted" := VBool true]> r']>
                        (job_db (sys_world s)))
                     (calls (sys_world s)
                        ++ replicate k (JobExists (job_name e) true)
                        ++ [JobExists (job_name e) false; PodDelete p]))
              JIdle (pods_thread s)).
Proof.
  intros Hidle Hok Hobj Hr Hu Hpod Htype s. subst s.
  change (exec v (JobEvent e :: sched) s0)
    with (exec v sched (step v (JobEvent e) s0)).
  set (s := exec v sched (step v (JobEvent e) s0)).
  set (n := job_name e) in *. split.
  - assert (Hstart : waiting n (calls (sys_world s0)) (step v (JobEvent e) s0)).
    { simpl. rewrite Hidle.
      rewrite (watch_jobs_event_deleted e _ r Hok Hr Hu Htype). simpl. fold n.
      repeat split; eauto. exists r. repeat split; auto. discriminate. }
    destruct (exec_waiting_or_confirmed v sched _ n _ (or_introl Hstart))
      as [Hw|Hc]; [|intros _; exact Hc].
    fold s in Hw.
    destruct Hw as ((r' & Hr' & Hu' & _) & _ & _ & Hdel).
    intros [(r'' & d & Hr'' & Hd & Ht)|Hne]; [|done].
    rewrite Hr' in Hr''. inversion Hr''; subst r''.
    unfold unended_for_jobs in Hu'. rewrite Hd, Ht in Hu'. discriminate.
  - intros r' p k b Hpc Hr' Hp.
    destruct s as [w pc pt]. simpl in Hpc, Hr'. subst pc.
    cbn [exec fold_left step jobs_thread sys_world pods_thread].
    rewrite (wait_pod_poll_ok n w r' Hr').
    assert (Ht : get_truthy r' "pod" = true) by (unfold get_truthy; by rewrite Hp).
    rewrite Ht. cbn [jobs_resume pods_thread].
    change (exec v (replicate k (JobPoll true) ++ [JobPoll false; JobReturn])
              (System w (JWaitGone n) pt) =
            System (World (<[n := <["deleted" := VBool true]> r']> (job_db w))
                      (calls w ++ replicate k (JobExists n true)
                         ++ [JobExists n false; PodDelete p])) JIdle pt).
    rewrite exec_polls_true.
    cbn [exec fold_left step jobs_thread sys_world].
    rewrite (wait_gone_poll_false n _ r' p); [|exact Hr'|exact Hp].
    cbn [jobs_resume pods_thread jobs_thread sys_world].
    rewrite (tombstone_ok n _ r'); [|exact Hr'].
    cbn [jobs_resume pods_thread job_db calls]. by rewrite <- app_assoc.
Qed.

Lemma obj_ok_singleton n r h :
  r !! "obj" = Some (VJob h) -> obj_ok {[ n := r ]}.
Proof.
  intros Hobj n' r' p H. apply lookup_singleton_Some in H as [_ <-]. congruence.
Qed.

Lemma deletion_waits_for_pod_and_absence_witness :
  let s := exec Py3 (JobEvent deletion_event :: [PodEvent running_pod])
             (sample_system sample_record) in
  ((tombstoned (job_name deletion_event) (sys_world s) \/
    pod_deletes (calls (sys_world s))
      <> pod_deletes (calls (sys_world (sample_system sample_record)))) ->
   confirmed (job_name deletion_event) (sys_world s)) /\
  (forall r' p k b,
     jobs_thread s = JWaitPod (job_name deletion_event) ->
     job_db (sys_world s) !! job_name deletion_event = Some r' ->
     r' !! "pod" = Some (VPod p) ->
     exec Py3 (JobPoll b :: replicate k (JobPoll true) ++ [JobPoll false; JobReturn]) s =
       System (World (<[job_name deletion_event := <["deleted" := VBool true]> r']>
                        (job_db (sys_world s)))
                     (calls (sys_world s)
                        ++ replicate k (JobExists (job_name deletion_event) true)
                        ++ [JobExists (job_name deletion_event) false; PodDelete p]))
              JIdle (pods_thread s)).
Proof.
  apply (deletion_waits_for_pod_and_absence Py3 (sample_system sample_record)
           deletion_event sample_record [PodEvent running_pod]).
  - reflexivity.
  - apply table_ok_singleton; vm_compute; eauto.
  - apply (obj_ok_singleton _ _ "job"). vm_compute. reflexivity.
  - vm_compute. reflexivity.
  - vm_compute. reflexivity.
  - left. vm_compute. reflexivity.
  - reflexivity.
Defined.

(** The race of the two streams on the sample job: the deletion
    confirmation arrives first, a poll finds no pod, the pod event
    attaches it, the backend still sees the workload once, then not. *)
Example deletion_race_trace :
  calls (sys_world (exec Py3
    [JobEvent deletion_event; JobPoll true; PodEvent running_pod;
     JobPoll true; JobPoll true; JobPoll false; JobReturn]
    (sample_system sample_record)))
  = [JobExists "job" true; JobExists "job" false; PodDelete "job-x7k2p"].
Proof. vm_compute. reflexivity. Qed.

(** ** Creating a job *)

Lemma create_job_present inst body job_id w experiment docker_img :
  body !! "experiment" = Some experiment ->
  body !! "docker-img" = Some docker_img ->
  create_job inst (Some body) job_id w =
    match instantiate_job_call inst body job_id docker_img experiment with
    | Raise e => (Raise e, w)
    | Ok job_obj =>
        if truthy job_obj
        then (Ok (Response 201 (VDict {[ "job-id" := VStr job_id ]})),
              World (<[job_id := new_record body job_id job_obj]> (job_db w))
                    (calls w))
        else (Ok (Response 500 (VDict {[ "job" := VStr "Could not be allocated" ]})),
              w)
    end.
Proof.
  intros He Hd. unfold create_job.
  rewrite bool_decide_eq_false_2.
  2:{ intros ->. by rewrite lookup_empty in He. }
  rewrite He, Hd. unfold bind, lift.
  destruct (instantiate_job_call inst body job_id docker_img experiment) as [x|e];
    [|done].
  by destruct (truthy x).
Qed.

Lemma create_job_missing inst request_json job_id w :
  missing_required request_json ->
  create_job inst request_json job_id w = (Raise (HTTPAbort 400), w).
Proof.
  unfold missing_required, create_job. destruct request_json as [body|]; [|done].
  intros Hm. case_bool_decide; [done|].
  destruct Hm as [-> | Hm]; [done|]. rewrite Hm.
  by destruct (body !! "experiment").
Qed.

(** A create request without [experiment] or [docker-img] is
    answered 400 and leaves the table as it is; with both present, a
    callee that returns nothing true (the backend refused the workload)
    gives 500 and leaves the table as it is; a callee that returns a
    handle gives 201 with the job id and the table gains the record under
    that id and nothing else, one new record when the id is fresh.  The
    table changes in no other case, and 201 is answered in no other
    case. *)
Theorem create_job_outcomes inst request_json job_id w :
  (missing_required request_json ->
     http_status (create_job inst request_json job_id w).1 = 400 /\
     (create_job inst request_json job_id w).2 = w) /\
  (forall body experiment docker_img,
     request_json = Some body ->
     body !! "experiment" = Some experiment ->
     body !! "docker-img" = Some docker_img ->
     (forall x, instantiate_job_call inst body job_id docker_img experiment = Ok x ->
        truthy x = false ->
        http_status (create_job inst request_json job_id w).1 = 500 /\
        (create_job inst request_json job_id w).2 = w) /\
     (forall job_obj,
        instantiate_job_call inst body job_id docker_img experiment = Ok job_obj ->
        truthy job_obj = true ->
        (create_job inst request_json job_id w).1 =
          Ok (Response 201 (VDict {[ "job-id" := VStr job_id ]})) /\
        (create_job inst request_json job_id w).2 =
          World (<[job_id := new_record body job_id job_obj]> (job_db w)) (calls w) /\
        (job_db w !! job_id = None ->
           size (job_db (create_job inst request_json job_id w).2)
             = S (size (job_db w))))) /\
  ((create_job inst request_json job_id w).2 = w \/
   exists body experiment docker_img job_obj,
     request_json = Some body /\
     body !! "experiment" = Some experiment /\
     body !! "docker-img" = Some docker_img /\
     instantiate_job_call inst body job_id docker_img experiment = Ok job_obj /\
     truthy job_obj = true /\
     (create_job inst request_json job_id w).1 =
       Ok (Response 201 (VDict {[ "job-id" := VStr job_id ]}))) /\
  (forall resp, (create_job inst request_json job_id w).1 = Ok resp ->
     status_code resp = 201 ->
     exists body experiment docker_img job_obj,
       request_json = Some body /\
       body !! "experiment" = Some experiment /\
       body !! "docker-img" = Some docker_img /\
       instantiate_job_call inst body job_id docker_img experiment = Ok job_obj /\
       truthy job_obj = true /\
       job_db (create_job inst request_json job_id w).2 !! job_id
         = Some (new_record body job_id job_obj)).
Proof.
  split; [|split; [|split]].
  - intros Hm. by rewrite create_job_missing.
  - intros body experiment docker_img -> He Hd.
    rewrite (create_job_present inst body job_id w experiment docker_img He Hd).
    split.
    + intros x -> ->. done.
    + intros job_obj -> ->. split; [done|]. split; [done|].
      intros Hfresh. cbn [snd job_db]. by apply map_size_insert_None.
  - destruct request_json as [body|]; [|by left].
    destruct (body !! "experiment") as [experiment|] eqn:He.
    2:{ left. rewrite create_job_missing; [done|]. by left. }
    destruct (body !! "docker-img") as [docker_img|] eqn:Hd.
    2:{ left. rewrite create_job_missing; [done|]. by right. }
    rewrite (create_job_present inst body job_id w experiment docker_img He Hd).
    destruct (instantiate_job_call inst body job_id docker_img experiment)
      as [x|e] eqn:Hcall; [|by left].
    destruct (truthy x) eqn:Ht; [|by left].
    right. exists body, experiment, docker_img, x. done.
  - intros resp Hresp Hcode.
    destruct request_json as [body|]; [|discriminate].
    destruct (body !! "experiment") as [experiment|] eqn:He.
    2:{ rewrite create_job_missing in Hresp; [discriminate|]. by left. }
    destruct (body !! "docker-img") as [docker_img|] eqn:Hd.
    2:{ rewrite create_job_missing in Hresp; [discriminate|]. by right. }
    rewrite (create_job_present inst body job_id w experiment docker_img He Hd)
      in Hresp |- *.
    destruct (instantiate_job_call inst body job_id docker_img experiment)
      as [x|e] eqn:Hcall; [|discriminate].
    destruct (truthy x) eqn:Ht.
    + exists body, experiment, docker_img, x. repeat split; try done.
      cbn [snd job_db]. apply lookup_insert_eq.
    + simpl in Hresp. inversion Hresp; subst resp. discriminate.
Qed.

Lemma create_job_outcomes_witness :
  (create_job accepting (Some sample_body) "job" (World ∅ [])).1 =
    Ok (Response 201 (VDict {[ "job-id" := VStr "job" ]})) /\
  (create_job accepting (Some sample_body) "job" (World ∅ [])).2 =
    World (<["job" := new_record sample_body "job" (VJob "job")]> ∅) [] /\
  (job_db (World ∅ []) !! "job" = None ->
   size (job_db (create_job accepting (Some sample_body) "job" (World ∅ [])).2)
     = S (size (job_db (World ∅ [])))).
Proof.
  apply (proj1 (proj2 (create_job_outcomes accepting (Some sample_body) "job"
                         (World ∅ [])))
           sample_body (VStr "atlas") (VStr "busybox")).
  - reflexivity.
  - vm_compute. reflexivity.
  - vm_compute. reflexivity.
  - reflexivity.
  - reflexivity.
Defined.

Example create_job_without_image :
  http_status
    (create_job accepting (Some {[ "experiment" := VStr "atlas" ]}) "job"
       (World ∅ [])).1 = 400.
Proof. vm_compute. reflexivity. Qed.

Example create_job_refused :
  create_job refusing (Some sample_body) "job" (World ∅ []) =
    (Ok (Response 500 (VDict {[ "job" := VStr "Could not be allocated" ]})),
     World ∅ []).
Proof.
  by rewrite (create_job_present refusing sample_body "job" (World ∅ [])
                (VStr "atlas") (VStr "busybox")).
Qed.

(** With [instantiate_job] bound to the one-parameter function of
    [k8s.py], the call in [create_job] cannot bind its seven arguments:
    it raises [TypeError] before the backend is reached, so a request
    that passes validation is answered 500 and stores nothing. *)
Remark create_job_as_imported body job_id w experiment docker_img :
  body !! "experiment" = Some experiment ->
  body !! "docker-img" = Some docker_img ->
  create_job instantiate_job_as_imported (Some body) job_id w = (Raise TypeError, w) /\
  http_status (create_job instantiate_job_as_imported (Some body) job_id w).1 = 500.
Proof.
  intros He Hd.
  rewrite (create_job_present _ body job_id w experiment docker_img He Hd).
  done.
Qed.

(** ** The public views *)

Lemma py_del_ok k d d' : py_del k d = Ok d' -> is_Some (d !! k) /\ d' = delete k d.
Proof.
  unfold py_del. destruct (d !! k) eqn:Hk; [|discriminate].
  intros H. inversion H. eauto.
Qed.

(** What the three statements leave: the record without ['obj'] and
    ['deleted'], and without ['pod'] when that held a true value. *)
Lemma strip_record_ok r job :
  strip_record r = Ok job ->
  job = (if get_truthy r "pod"
         then delete "pod" (delete "deleted" (delete "obj" r))
         else delete "deleted" (delete "obj" r)).
Proof.
  unfold strip_record.
  destruct (py_del "obj" r) as [r1|] eqn:H1; [|discriminate].
  apply py_del_ok in H1 as [_ ->].
  destruct (py_del "deleted" (delete "obj" r)) as [r2|] eqn:H2; [|discriminate].
  apply py_del_ok in H2 as [_ ->].
  assert (Hg : get_truthy (delete "deleted" (delete "obj" r)) "pod"
               = get_truthy r "pod").
  { unfold get_truthy. by rewrite !lookup_delete_ne. }
  rewrite Hg. destruct (get_truthy r "pod").
  - intros H3. by apply py_del_ok in H3 as [_ ->].
  - intros H3. by inversion H3.
Qed.

Lemma strip_record_total r :
  is_Some (r !! "obj") -> is_Some (r !! "deleted") ->
  exists job, strip_record r = Ok job.
Proof.
  intros [o Ho] [d Hd]. unfold strip_record, py_del. rewrite Ho.
  rewrite lookup_delete_ne by done. rewrite Hd.
  destruct (get_truthy (delete "deleted" (delete "obj" r)) "pod") eqn:Hg; [|eauto].
  unfold get_truthy in Hg.
  destruct (delete "deleted" (delete "obj" r) !! "pod"); [eauto | discriminate].
Qed.

Lemma strip_record_hides r job :
  strip_record r = Ok job ->
  job !! "obj" = None /\ job !! "deleted" = None /\
  get_truthy job "pod" = false /\
  (forall p, job !! "pod" <> Some (VPod p)) /\
  ((r !! "pod" = None \/ exists p, r !! "pod" = Some (VPod p)) ->
   job !! "pod" = None).
Proof.
  intros H. apply strip_record_ok in H. 
  assert (Hpod : get_truthy job "pod" = false).
  { subst job. destruct (get_truthy r "pod") eqn:Hg; unfold get_truthy in *.
    - by rewrite lookup_delete_eq.
    - by rewrite !lookup_delete_ne. }
  split; [|split; [|split; [|split]]].
  - subst job. destruct (get_truthy r "pod").
    + rewrite !lookup_delete_ne by done. apply lookup_delete_eq.
    + rewrite !lookup_delete_ne by done. apply lookup_delete_eq.
  - subst job. destruct (get_truthy r "pod").
    + rewrite !lookup_delete_ne by done. apply lookup_delete_eq.
    + apply lookup_delete_eq.
  - exact Hpod.
  - intros p Hp. unfold get_truthy in Hpod. rewrite Hp in Hpod. discriminate.
  - intros Hr. subst job. destruct (get_truthy r "pod") eqn:Hg.
    + apply lookup_delete_eq.
    + rewrite !lookup_delete_ne by done.
      destruct Hr as [Hr|[p Hr]]; [done|].
      unfold get_truthy in Hg. rewrite Hr in Hg. discriminate.
Qed.

Lemma strip_record_keeps r job k :
  strip_record r = Ok job -> k ∉ stripped_by_views -> job !! k = r !! k.
Proof.
  intros H Hk. apply strip_record_ok in H. subst job.
  assert (k <> "obj" /\ k <> "deleted" /\ k <> "pod") as (H1 & H2 & H3).
  { unfold stripped_by_views in Hk. repeat split; intros ->; apply Hk;
      repeat constructor. }
  destruct (get_truthy r "pod"); by rewrite !lookup_delete_ne.
Qed.

(** The loop of [filter_jobs] strips every listed record once and leaves
    the others. *)
Lemma filter_loop_ok names : forall copy view,
  NoDup names ->
  filter_loop names copy = Ok view ->
  forall j,
    (j ∈ names -> exists r job, copy !! j = Some r /\ strip_record r = Ok job /\
                                view !! j = Some job) /\
    (j ∉ names -> view !! j = copy !! j).
Proof.
  induction names as [|n names IH]; intros copy view Hnd Hrun j.
  - simpl in Hrun. inversion Hrun; subst. split; [|done].
    intros Hj. by apply elem_of_nil in Hj.
  - simpl in Hrun. apply NoDup_cons in Hnd as [Hn Hnd].
    destruct (copy !! n) as [r|] eqn:Hr; [|discriminate].
    destruct (strip_record r) as [job|] eqn:Hs; [|discriminate].
    destruct (IH _ _ Hnd Hrun j) as [Hin Hout]. split.
    + intros Hj. apply elem_of_cons in Hj as [->|Hj].
      * exists r, job. split; [done|]. split; [done|].
        destruct (IH _ _ Hnd Hrun n) as [_ Hout']. rewrite (Hout' Hn).
        apply lookup_insert_eq.
      * destruct (Hin Hj) as (r' & job' & Hr' & Hs' & Hv).
        assert (n <> j) by (intros ->; done).
        rewrite lookup_insert_ne in Hr' by done. eauto.
    + intros Hj. apply not_elem_of_cons in Hj as [Hne Hj].
      rewrite (Hout Hj). by rewrite lookup_insert_ne.
Qed.

Lemma filter_loop_total names : forall copy,
  NoDup names ->
  (forall j, j ∈ names -> exists r job, copy !! j = Some r /\ strip_record r = Ok job) ->
  exists view, filter_loop names copy = Ok view.
Proof.
  induction names as [|n names IH]; intros copy Hnd Hall; [by eexists|].
  simpl. apply NoDup_cons in Hnd as [Hn Hnd].
  destruct (Hall n) as (r & job & Hr & Hs); [left|]. rewrite Hr, Hs.
  apply IH; [done|]. intros j Hj.
  destruct (Hall j) as (r' & job' & Hr' & Hs'); [by right|].
  assert (n <> j) by (intros ->; done).
  exists r', job'. by rewrite lookup_insert_ne.
Qed.

Lemma elem_of_keys (db : gmap string (gmap string pyval)) j :
  j ∈ (map_to_list db).*1 <-> is_Some (db !! j).
Proof.
  rewrite list_elem_of_fmap. split.
  - intros ([j' r] & -> & Hin). apply elem_of_map_to_list in Hin. eauto.
  - intros [r Hr]. exists (j, r). split; [done|]. by apply elem_of_map_to_list.
Qed.

Lemma filter_jobs_ok db view :
  filter_jobs db = Ok view ->
  forall j,
    match db !! j with
    | Some r => exists job, strip_record r = Ok job /\ view !! j = Some job
    | None => view !! j = None
    end.
Proof.
  unfold filter_jobs. intros Hrun j.
  destruct (filter_loop_ok _ _ _ (NoDup_fst_map_to_list db) Hrun j) as [Hin Hout].
  destruct (db !! j) as [r|] eqn:Hr.
  - destruct Hin as (r' & job & Hr' & Hs & Hv); [apply elem_of_keys; by rewrite Hr|].
    inversion Hr'; subst r'. eauto.
  - rewrite Hout; [done|]. rewrite elem_of_keys, Hr. by intros [? ?].
Qed.

Lemma filter_jobs_total db :
  views_ok db -> exists view, filter_jobs db = Ok view.
Proof.
  intros Hok. apply filter_loop_total; [apply NoDup_fst_map_to_list|].
  intros j Hj. apply elem_of_keys in Hj as [r Hr].
  destruct (Hok j r Hr) as [Ho Hd].
  destruct (strip_record_total r Ho Hd) as [job Hs]. eauto.
Qed.

Lemma views_ok_singleton n r :
  is_Some (r !! "obj") -> is_Some (r !! "deleted") -> views_ok {[ n := r ]}.
Proof.
  intros Ho Hd n' r' H. apply lookup_singleton_Some in H as [_ <-]. done.
Qed.

(** On a table whose records were stored by [create_job], both
    views are returned, and no record in them shows the workload handle
    ['obj'], the ['deleted'] flag or a pod reference. *)
Theorem public_views_hide_internal_fields db :
  views_ok db ->
  (exists view,
     get_jobs db = Ok (Response 200 (VDict {[ "jobs" := VDict (VDict <$> view) ]})) /\
     forall j,
       match db !! j with
       | Some r => exists job, view !! j = Some job /\ internal_hidden r job
       | None => view !! j = None
       end) /\
  (forall job_id,
     match db !! job_id with
     | Some r =>
         exists job,
           get_job db job_id = Ok (Response 200 (VDict {[ "job" := VDict job ]})) /\
           internal_hidden r job
     | None => get_job db job_id = Raise (HTTPAbort 404)
     end).
Proof.
  intros Hok. split.
  - destruct (filter_jobs_total db Hok) as [view Hview].
    exists view. unfold get_jobs. rewrite Hview. split; [done|].
    intros j. pose proof (filter_jobs_ok db view Hview j) as Hj.
    destruct (db !! j) as [r|]; [|done].
    destruct Hj as (job & Hs & Hv). exists job. split; [done|].
    destruct (strip_record_hides r job Hs) as (H1 & H2 & _ & H3 & H4).
    by repeat split.
  - intros job_id. unfold get_job.
    destruct (db !! job_id) as [r|] eqn:Hr; [|done].
    destruct (Hok job_id r Hr) as [Ho Hd].
    destruct (strip_record_total r Ho Hd) as [job Hs]. rewrite Hs.
    exists job. split; [done|].
    destruct (strip_record_hides r job Hs) as (H1 & H2 & _ & H3 & H4).
    by repeat split.
Qed.

Lemma public_views_hide_internal_fields_witness :
  (exists view,
     get_jobs {[ "job" := sample_failed ]} =
       Ok (Response 200 (VDict {[ "jobs" := VDict (VDict <$> view) ]})) /\
     forall j,
       match ({[ "job" := sample_failed ]} : gmap string (gmap string pyval)) !! j with
       | Some r => exists job, view !! j = Some job /\ internal_hidden r job
       | None => view !! j = None
       end) /\
  (forall job_id,
     match ({[ "job" := sample_failed ]} : gmap string (gmap string pyval)) !! job_id with
     | Some r =>
         exists job,
           get_job {[ "job" := sample_failed ]} job_id =
             Ok (Response 200 (VDict {[ "job" := VDict job ]})) /\
           internal_hidden r job
     | None => get_job {[ "job" := sample_failed ]} job_id = Raise (HTTPAbort 404)
     end).
Proof.
  apply (public_views_hide_internal_fields {[ "job" := sample_failed ]}).
  apply views_ok_singleton; vm_compute; eauto.
Defined.

Lemma new_record_keeps body job_id job_obj k :
  k ∉ assigned_by_create -> new_record body job_id job_obj !! k = body !! k.
Proof.
  intros Hk. unfold new_record.
  rewrite !lookup_insert_ne; [done|..]; intros <-; apply Hk;
    unfold assigned_by_create; repeat constructor.
Qed.

(** The views return every stored field other than ['obj'],
    ['deleted'] and ['pod'] with the value the record holds, the captured
    ['log'] among them; and [create_job] stores every field of the
    request body it does not assign itself as the client sent it, so such
    a field can be read back from [GET /jobs/<id>]. *)
Theorem public_views_keep_other_fields db :
  views_ok db ->
  (exists view,
     get_jobs db = Ok (Response 200 (VDict {[ "jobs" := VDict (VDict <$> view) ]})) /\
     forall j r, db !! j = Some r ->
       exists job, view !! j = Some job /\
         (forall k, k ∉ stripped_by_views -> job !! k = r !! k) /\
         job !! "log" = r !! "log" /\
         dom job ⊆ dom r) /\
  (forall job_id r, db !! job_id = Some r ->
     exists job,
       get_job db job_id = Ok (Response 200 (VDict {[ "job" := VDict job ]})) /\
       (forall k, k ∉ stripped_by_views -> job !! k = r !! k) /\
       job !! "log" = r !! "log" /\
       dom job ⊆ dom r) /\
  (forall body job_id job_obj,
     exists job,
       get_job (<[job_id := new_record body job_id job_obj]> db) job_id =
         Ok (Response 200 (VDict {[ "job" := VDict job ]})) /\
       forall k, k ∉ assigned_by_create -> k <> "pod" -> job !! k = body !! k).
Proof.
  intros Hok.
  assert (Hlog : "log" ∉ stripped_by_views).
  { unfold stripped_by_views. rewrite !elem_of_cons, elem_of_nil.
    intros [?|[?|[?|[]]]]; discriminate. }
  assert (Hdom : forall r job, strip_record r = Ok job -> dom job ⊆ dom r).
  { intros r job Hs. apply strip_record_ok in Hs. subst job.
    destruct (get_truthy r "pod"); intros k [x Hx]%elem_of_dom;
      apply elem_of_dom; repeat (apply lookup_delete_Some in Hx as [_ Hx]); eauto. }
  split; [|split].
  - destruct (filter_jobs_total db Hok) as [view Hview].
    exists view. unfold get_jobs. rewrite Hview. split; [done|].
    intros j r Hr. pose proof (filter_jobs_ok db view Hview j) as Hj.
    rewrite Hr in Hj. destruct Hj as (job & Hs & Hv). exists job.
    split; [done|]. split; [|split].
    + intros k Hk. by apply strip_record_keeps.
    + by apply strip_record_keeps.
    + by apply Hdom.
  - intros job_id r Hr. unfold get_job. rewrite Hr.
    destruct (Hok job_id r Hr) as [Ho Hd].
    destruct (strip_record_total r Ho Hd) as [job Hs]. rewrite Hs.
    exists job. split; [done|]. split; [|split].
    + intros k Hk. by apply strip_record_keeps.
    + by apply strip_record_keeps.
    + by apply Hdom.
  - intros body job_id job_obj. unfold get_job. rewrite lookup_insert_eq.
    destruct (strip_record_total (new_record body job_id job_obj)) as [job Hs].
    { unfold new_record. rewrite lookup_insert_ne by done.
      rewrite lookup_insert_eq. eauto. }
    { unfold new_record. rewrite lookup_insert_eq. eauto. }
    rewrite Hs. exists job. split; [done|].
    intros k Hk Hpod. rewrite (strip_record_keeps _ _ k Hs).
    + by apply new_record_keeps.
    + unfold stripped_by_views. intros H.
      apply elem_of_cons in H as [->|H].
      { apply Hk. unfold assigned_by_create. repeat constructor. }
      apply elem_of_cons in H as [->|H].
      { apply Hk. unfold assigned_by_create. repeat constructor. }
      apply elem_of_cons in H as [->|H]; [done|]. by apply elem_of_nil in H.
Qed.

Lemma public_views_keep_other_fields_witness :
  (exists view,
     get_jobs {[ "job" := sample_failed ]} =
       Ok (Response 200 (VDict {[ "jobs" := VDict (VDict <$> view) ]})) /\
     forall j r,
       ({[ "job" := sample_failed ]} : gmap string (gmap string pyval)) !! j = Some r ->
       exists job, view !! j = Some job /\
         (forall k, k ∉ stripped_by_views -> job !! k = r !! k) /\
         job !! "log" = r !! "log" /\
         dom job ⊆ dom r) /\
  (forall job_id r,
     ({[ "job" := sample_failed ]} : gmap string (gmap string pyval)) !! job_id = Some r ->
     exists job,
       get_job {[ "job" := sample_failed ]} job_id =
         Ok (Response 200 (VDict {[ "job" := VDict job ]})) /\
       (forall k, k ∉ stripped_by_views -> job !! k = r !! k) /\
       job !! "log" = r !! "log" /\
       dom job ⊆ dom r) /\
  (forall body job_id job_obj,
     exists job,
       get_job (<[job_id := new_record body job_id job_obj]> {[ "job" := sample_failed ]})
         job_id = Ok (Response 200 (VDict {[ "job" := VDict job ]})) /\
       forall k, k ∉ assigned_by_create -> k <> "pod" -> job !! k = body !! k).
Proof.
  apply (public_views_keep_other_fields {[ "job" := sample_failed ]}).
  apply views_ok_singleton; vm_compute; eauto.
Defined.

(** The view of the sample job: the client's own field and the captured
    log are there, the three internal fields are not. *)
Example get_job_sample_failed :
  get_job {[ "job" := sample_failed ]} "job" =
    Ok (Response 200 (VDict {[ "job" := VDict
      (<["log" := VStr "Traceback"]>
      (<["max_restart_count" := VInt 3]>
      (<["restart_count" := VInt 0]>
      (<["status" := VStr "failed"]>
      (<["job-id" := VStr "job"]>
      (<["color" := VStr "blue"]> sample_body)))))) ]})).
Proof. vm_compute. reflexivity. Qed.

Example get_job_unknown : http_status (get_job {[ "job" := sample_failed ]} "other") = 404.
Proof. vm_compute. reflexivity. Qed.

(** ** The manifest builder *)

(** A loop that appends one mount and one volume per item appends them
    in input order, numbered from the start index, and touches nothing
    else. *)
Lemma for_enumerate_append {A} (fm : nat -> A -> volume_mount)
    (fv : nat -> A -> volume) (l : list A) : forall i job,
  volumes (for_enumerate
             (fun num x => append_mount_and_volume (fm num x) (fv num x)) i l job)
    = (volumes job ++ imap (fun k x => fv (i + k)%nat x) l)%list /\
  volumeMounts (container0 (for_enumerate
             (fun num x => append_mount_and_volume (fm num x) (fv num x)) i l job))
    = (volumeMounts (container0 job) ++ imap (fun k x => fm (i + k)%nat x) l)%list /\
  manifest_head (for_enumerate
             (fun num x => append_mount_and_volume (fm num x) (fv num x)) i l job)
    = manifest_head job.
Proof.
  induction l as [|x l IH]; intros i job; simpl.
  - by rewrite !app_nil_r.
  - destruct (IH (S i) (append_mount_and_volume (fm i x) (fv i x) job))
      as (Hv & Hm & Hh).
    rewrite Hv, Hm, Hh. cbn [append_mount_and_volume volumes container0 volumeMounts].
    rewrite <- !app_assoc. cbn [app]. rewrite !Nat.add_0_r.
    repeat split; do 2 f_equal; apply imap_ext; intros k y _; simpl;
      by rewrite Nat.add_succ_r.
Qed.

Lemma for_enumerate_ext {A St} (f g : nat -> A -> St -> St) l :
  (forall n x s, f n x s = g n x s) ->
  forall i s, for_enumerate f i l s = for_enumerate g i l s.
Proof.
  intros Hfg. induction l as [|x l IH]; intros i s; simpl; [done|].
  by rewrite Hfg, IH.
Qed.

Section PrepareJobFacts.

Variable job_template : manifest.
Variable get_k8s_cephfs_volume : string -> volume.
Variable CEPHFS_MOUNT_PATH : string.
Variable get_k8s_cvmfs_volume : string -> string -> volume.
Variable get_cvmfs_mount_point : string -> string.
Variable get_k8s_secret_volumes : string -> list secret_volume.
Variable shlex_split : string -> list string.

Abbreviation prepare := (prepare_job job_template get_k8s_cephfs_volume
  CEPHFS_MOUNT_PATH get_k8s_cvmfs_volume get_cvmfs_mount_point
  get_k8s_secret_volumes shlex_split).

Lemma fold_add_env env_vars : forall job,
  env (container0 (fold_left (fun j vv => add_env vv j) env_vars job))
    = (env (container0 job) ++ env_vars)%list /\
  volumes (fold_left (fun j vv => add_env vv j) env_vars job) = volumes job /\
  volumeMounts (container0 (fold_left (fun j vv => add_env vv j) env_vars job))
    = volumeMounts (container0 job) /\
  command (container0 (fold_left (fun j vv => add_env vv j) env_vars job))
    = command (container0 job) /\
  (metadata_name (fold_left (fun j vv => add_env vv j) env_vars job),
   metadata_namespace (fold_left (fun j vv => add_env vv j) env_vars job),
   template_metadata_name (fold_left (fun j vv => add_env vv j) env_vars job),
   container_name (container0 (fold_left (fun j vv => add_env vv j) env_vars job)),
   image (container0 (fold_left (fun j vv => add_env vv j) env_vars job)))
  = (metadata_name job, metadata_namespace job, template_metadata_name job,
     container_name (container0 job), image (container0 job)).
Proof.
  induction env_vars as [|vv env_vars IH]; intros job; simpl.
  - by rewrite app_nil_r.
  - destruct (IH (add_env vv job)) as (He & Hv & Hm & Hc & Hn).
    rewrite He, Hv, Hm, Hc, Hn. simpl. by rewrite <- app_assoc.
Qed.

Lemma prepare_job_closed_form job_id docker_img cmd cvmfs_repos env_vars namespace
    shared_file_system scopesecrets :
  let job := prepare job_id docker_img cmd cvmfs_repos env_vars namespace
               shared_file_system scopesecrets in
  let secrets := if scopesecrets then get_k8s_secret_volumes namespace else [] in
  volumes job =
    (volumes job_template
     ++ (if shared_file_system then [get_k8s_cephfs_volume namespace] else [])
     ++ imap (fun i repo =>
                Volume (volume_name (get_k8s_cvmfs_volume namespace repo)
                          ++ "-" ++ format_num i)
                       (volume_rest (get_k8s_cvmfs_volume namespace repo)))
             cvmfs_repos
     ++ imap (fun i s => Volume ("secret-" ++ format_num i) {[ "secret" := secret s ]})
             secrets)%list /\
  volumeMounts (container0 job) =
    (volumeMounts (container0 job_template)
     ++ (if shared_file_system
         then [VolumeMount (volume_name (get_k8s_cephfs_volume namespace))
                           CEPHFS_MOUNT_PATH]
         else [])
     ++ imap (fun i repo =>
                VolumeMount (volume_name (get_k8s_cvmfs_volume namespace repo)
                               ++ "-" ++ format_num i)
                            (get_cvmfs_mount_point repo))
             cvmfs_repos
     ++ imap (fun i s => VolumeMount ("secret-" ++ format_num i) (secret_mountPath s))
             secrets)%list.
Proof.
  intros job secrets. subst job secrets. unfold prepare_job.
  set (j0 := Manifest job_id namespace job_id _ _).
  set (j1 := set_command shlex_split cmd j0).
  assert (H1 : volumes j1 = volumes job_template /\
               volumeMounts (container0 j1) = volumeMounts (container0 job_template)).
  { unfold j1, set_command. destruct cmd as [c|]; [|done].
    by destruct (negb (String.eqb c "")). }
  set (j2 := match env_vars with [] => j1 | _ => _ end).
  assert (H2 : volumes j2 = volumes job_template /\
               volumeMounts (container0 j2) = volumeMounts (container0 job_template)).
  { assert (Hj2 : j2 = fold_left (fun j vv => add_env vv j) env_vars j1)
      by (unfold j2; by destruct env_vars).
    rewrite Hj2. destruct (fold_add_env env_vars j1) as (_ & Hv & Hm & _).
    rewrite Hv, Hm. exact H1. }
  set (j3 := if shared_file_system then _ else j2).
  assert (H3 : volumes j3 =
                 (volumes job_template
                  ++ (if shared_file_system
                      then [get_k8s_cephfs_volume namespace] else []))%list /\
               volumeMounts (container0 j3) =
                 (volumeMounts (container0 job_template)
                  ++ (if shared_file_system
                      then [VolumeMount (volume_name (get_k8s_cephfs_volume namespace))
                                        CEPHFS_MOUNT_PATH]
                      else []))%list).
  { unfold j3. destruct H2 as [Hv Hm]. destruct shared_file_system.
    - unfold add_shared_volume, append_mount_and_volume. simpl. by rewrite Hv, Hm.
    - by rewrite Hv, Hm, !app_nil_r. }
  set (j4 := match cvmfs_repos with [] => j3 | _ => _ end).
  assert (Hj4 : j4 = for_enumerate
            (add_cvmfs_repo get_k8s_cvmfs_volume get_cvmfs_mount_point namespace)
            0 cvmfs_repos j3) by (unfold j4; by destruct cvmfs_repos).
  assert (Hj5 : (if scopesecrets
                 then for_enumerate add_secret 0 (get_k8s_secret_volumes namespace) j4
                 else j4)
                = for_enumerate add_secret 0
                    (if scopesecrets then get_k8s_secret_volumes namespace else []) j4)
    by (by destruct scopesecrets).
  rewrite Hj5, Hj4.
  rewrite (for_enumerate_ext add_secret
    (fun num s => append_mount_and_volume
       (VolumeMount ("secret-" ++ format_num num) (secret_mountPath s))
       (Volume ("secret-" ++ format_num num) {[ "secret" := secret s ]})))
    by reflexivity.
  rewrite (for_enumerate_ext
    (add_cvmfs_repo get_k8s_cvmfs_volume get_cvmfs_mount_point namespace)
    (fun num repo => append_mount_and_volume
       (VolumeMount (volume_name (get_k8s_cvmfs_volume namespace repo)
                       ++ "-" ++ format_num num) (get_cvmfs_mount_point repo))
       (Volume (volume_name (get_k8s_cvmfs_volume namespace repo)
                  ++ "-" ++ format_num num)
               (volume_rest (get_k8s_cvmfs_volume namespace repo)))))
    by reflexivity.
  match goal with |- context [for_enumerate ?body 0 (if scopesecrets then _ else _) ?j] =>
    destruct (for_enumerate_append
      (fun num s => VolumeMount ("secret-" ++ format_num num) (secret_mountPath s))
      (fun num s => Volume ("secret-" ++ format_num num) {[ "secret" := secret s ]})
      (if scopesecrets then get_k8s_secret_volumes namespace else []) 0 j)
      as (Hsv & Hsm & _) end.
  rewrite Hsv, Hsm.
  destruct (for_enumerate_append
      (fun num repo =>
         VolumeMount (volume_name (get_k8s_cvmfs_volume namespace repo)
                        ++ "-" ++ format_num num) (get_cvmfs_mount_point repo))
      (fun num repo =>
         Volume (volume_name (get_k8s_cvmfs_volume namespace repo)
                   ++ "-" ++ format_num num)
                (volume_rest (get_k8s_cvmfs_volume namespace repo)))
      cvmfs_repos 0 j3) as (Hrv & Hrm & _).
  rewrite Hrv, Hrm. destruct H3 as [-> ->].
  by rewrite <- !app_assoc.
Qed.

(** The volumes and mounts of the built manifest: those of the template,
    then the shared volume if asked for, then one per repository in
    input order, its name suffixed by its index and everything else of
    the template volume kept, then one per secret, named by index. *)
Theorem prepare_job_volumes job_id docker_img cmd cvmfs_repos env_vars namespace
    shared_file_system scopesecrets :
  let job := prepare job_id docker_img cmd cvmfs_repos env_vars namespace
               shared_file_system scopesecrets in
  let secrets := if scopesecrets then get_k8s_secret_volumes namespace else [] in
  volumes job =
    (volumes job_template
     ++ (if shared_file_system then [get_k8s_cephfs_volume namespace] else [])
     ++ imap (fun i repo =>
                Volume (volume_name (get_k8s_cvmfs_volume namespace repo)
                          ++ "-" ++ format_num i)
                       (volume_rest (get_k8s_cvmfs_volume namespace repo)))
             cvmfs_repos
     ++ imap (fun i s => Volume ("secret-" ++ format_num i) {[ "secret" := secret s ]})
             secrets)%list /\
  volumeMounts (container0 job) =
    (volumeMounts (container0 job_template)
     ++ (if shared_file_system
         then [VolumeMount (volume_name (get_k8s_cephfs_volume namespace))
                           CEPHFS_MOUNT_PATH]
         else [])
     ++ imap (fun i repo =>
                VolumeMount (volume_name (get_k8s_cvmfs_volume namespace repo)
                               ++ "-" ++ format_num i)
                            (get_cvmfs_mount_point repo))
             cvmfs_repos
     ++ imap (fun i s => VolumeMount ("secret-" ++ format_num i) (secret_mountPath s))
             secrets)%list.
Proof. apply prepare_job_closed_form. Qed.

(** Names, namespace and image are set from the arguments; the command
    is the tokenised [cmd] when one is given and the template's own
    otherwise; the environment is the template's followed by the given
    pairs in their order. *)
Theorem prepare_job_head job_id docker_img cmd cvmfs_repos env_vars namespace
    shared_file_system scopesecrets :
  manifest_head (prepare job_id docker_img cmd cvmfs_repos env_vars namespace
                   shared_file_system scopesecrets)
  = (job_id, namespace, job_id, job_id, docker_img,
     match cmd with
     | Some c => if String.eqb c "" then command (container0 job_template)
                 else Some (shlex_split c)
     | None => command (container0 job_template)
     end,
     (env (container0 job_template) ++ env_vars)%list).
Proof.
  unfold prepare_job.
  set (j0 := Manifest job_id namespace job_id _ _).
  set (j1 := set_command shlex_split cmd j0).
  set (j2 := match env_vars with [] => j1 | _ => _ end).
  set (j3 := if shared_file_system then _ else j2).
  set (j4 := match cvmfs_repos with [] => j3 | _ => _ end).
  assert (Hj4 : j4 = for_enumerate
            (add_cvmfs_repo get_k8s_cvmfs_volume get_cvmfs_mount_point namespace)
            0 cvmfs_repos j3) by (unfold j4; by destruct cvmfs_repos).
  assert (Hj5 : (if scopesecrets
                 then for_enumerate add_secret 0 (get_k8s_secret_volumes namespace) j4
                 else j4)
                = for_enumerate add_secret 0
                    (if scopesecrets then get_k8s_secret_volumes namespace else []) j4)
    by (by destruct scopesecrets).
  rewrite Hj5, Hj4.
  rewrite (for_enumerate_ext add_secret
    (fun num s => append_mount_and_volume
       (VolumeMount ("secret-" ++ format_num num) (secret_mountPath s))
       (Volume ("secret-" ++ format_num num) {[ "secret" := secret s ]})))
    by reflexivity.
  rewrite (for_enumerate_ext
    (add_cvmfs_repo get_k8s_cvmfs_volume get_cvmfs_mount_point namespace)
    (fun num repo => append_mount_and_volume
       (VolumeMount (volume_name (get_k8s_cvmfs_volume namespace repo)
                       ++ "-" ++ format_num num) (get_cvmfs_mount_point repo))
       (Volume (volume_name (get_k8s_cvmfs_volume namespace repo)
                  ++ "-" ++ format_num num)
               (volume_rest (get_k8s_cvmfs_volume namespace repo)))))
    by reflexivity.
  rewrite (proj2 (proj2 (for_enumerate_append _ _ _ _ _))).
  rewrite (proj2 (proj2 (for_enumerate_append _ _ _ _ _))).
  assert (H3 : manifest_head j3 = manifest_head j2).
  { unfold j3. by destruct shared_file_system. }
  rewrite H3.
  assert (Hj2 : j2 = fold_left (fun j vv => add_env vv j) env_vars j1)
    by (unfold j2; by destruct env_vars).
  rewrite Hj2. unfold manifest_head.
  destruct (fold_add_env env_vars j1) as (He & _ & _ & Hc & Hn).
  rewrite He, Hc. inversion Hn as [[Hn1 Hn2 Hn3 Hn4 Hn5]].
  rewrite Hn1, Hn2, Hn3, Hn4, Hn5.
  unfold j1, set_command. destruct cmd as [c|]; [|done].
  by destruct (String.eqb c "").
Qed.

Lemma repository_volume_lookup job_id docker_img cmd cvmfs_repos env_vars
    namespace shared_file_system scopesecrets i repo :
  cvmfs_repos !! i = Some repo ->
  let job := prepare job_id docker_img cmd cvmfs_repos env_vars namespace
               shared_file_system scopesecrets in
  let shared := if shared_file_system then 1%nat else 0%nat in
  let secrets := if scopesecrets then get_k8s_secret_volumes namespace else [] in
  volumes job !! (length (volumes job_template) + shared + i)%nat =
    Some (Volume (volume_name (get_k8s_cvmfs_volume namespace repo)
                    ++ "-" ++ format_num i)
                 (volume_rest (get_k8s_cvmfs_volume namespace repo))) /\
  volumeMounts (container0 job)
    !! (length (volumeMounts (container0 job_template)) + shared + i)%nat =
    Some (VolumeMount (volume_name (get_k8s_cvmfs_volume namespace repo)
                         ++ "-" ++ format_num i)
                      (get_cvmfs_mount_point repo)) /\
  length (volumes job) =
    (length (volumes job_template) + shared + length cvmfs_repos
     + length secrets)%nat /\
  length (volumeMounts (container0 job)) =
    (length (volumeMounts (container0 job_template)) + shared + length cvmfs_repos
     + length secrets)%nat.
Proof.
  intros Hi job shared secrets.
  destruct (prepare_job_closed_form job_id docker_img cmd cvmfs_repos env_vars namespace
              shared_file_system scopesecrets) as [Hv Hm].
  fold job in Hv, Hm. fold secrets in Hv, Hm. rewrite Hv, Hm.
  assert (Hsh : forall A (x : A),
            length (if shared_file_system then [x] else []) = shared).
  { intros A x. unfold shared. by destruct shared_file_system. }
  repeat split.
  - rewrite <- Nat.add_assoc. rewrite lookup_app_r by lia.
    replace (length (volumes job_template) + (shared + i)
             - length (volumes job_template))%nat with (shared + i)%nat by lia.
    rewrite lookup_app_r by (rewrite Hsh; lia).
    rewrite Hsh. replace (shared + i - shared)%nat with i by lia.
    rewrite lookup_app_l by (rewrite length_imap; by eapply lookup_lt_Some).
    by rewrite list_lookup_imap, Hi.
  - rewrite <- Nat.add_assoc. rewrite lookup_app_r by lia.
    replace (length (volumeMounts (container0 job_template)) + (shared + i)
             - length (volumeMounts (container0 job_template)))%nat
      with (shared + i)%nat by lia.
    rewrite lookup_app_r by (rewrite Hsh; lia).
    rewrite Hsh. replace (shared + i - shared)%nat with i by lia.
    rewrite lookup_app_l by (rewrite length_imap; by eapply lookup_lt_Some).
    by rewrite list_lookup_imap, Hi.
  - rewrite !length_app, !length_imap, Hsh. lia.
  - rewrite !length_app, !length_imap, Hsh. lia.
Qed.

(** The [i]-th repository of the request is found right after the
    template's volumes and the shared one, under the name of its
    template volume suffixed by [-i], mounted at that repository's mount
    point; the number of volumes and of mounts grows by one for the
    shared file system, one per repository and one per secret. *)
Theorem prepare_job_repository_volume job_id docker_img cmd cvmfs_repos env_vars
    namespace shared_file_system scopesecrets i repo :
  cvmfs_repos !! i = Some repo ->
  let job := prepare job_id docker_img cmd cvmfs_repos env_vars namespace
               shared_file_system scopesecrets in
  let shared := if shared_file_system then 1%nat else 0%nat in
  let secrets := if scopesecrets then get_k8s_secret_volumes namespace else [] in
  volumes job !! (length (volumes job_template) + shared + i)%nat =
    Some (Volume (volume_name (get_k8s_cvmfs_volume namespace repo)
                    ++ "-" ++ format_num i)
                 (volume_rest (get_k8s_cvmfs_volume namespace repo))) /\
  volumeMounts (container0 job)
    !! (length (volumeMounts (container0 job_template)) + shared + i)%nat =
    Some (VolumeMount (volume_name (get_k8s_cvmfs_volume namespace repo)
                         ++ "-" ++ format_num i)
                      (get_cvmfs_mount_point repo)) /\
  length (volumes job) =
    (length (volumes job_template) + shared + length cvmfs_repos
     + length secrets)%nat /\
  length (volumeMounts (container0 job)) =
    (length (volumeMounts (container0 job_template)) + shared + length cvmfs_repos
     + length secrets)%nat.
Proof. apply repository_volume_lookup. Qed.

(** The [i]-th secret of the namespace comes after the repositories, as
    a volume and a mount both named [secret-i]. *)
Theorem prepare_job_secret_volume job_id docker_img cmd cvmfs_repos env_vars
    namespace shared_file_system i s :
  get_k8s_secret_volumes namespace !! i = Some s ->
  let job := prepare job_id docker_img cmd cvmfs_repos env_vars namespace
               shared_file_system true in
  let shared := if shared_file_system then 1%nat else 0%nat in
  volumes job
    !! (length (volumes job_template) + shared + length cvmfs_repos + i)%nat =
    Some (Volume ("secret-" ++ format_num i) {[ "secret" := secret s ]}) /\
  volumeMounts (container0 job)
    !! (length (volumeMounts (container0 job_template)) + shared
        + length cvmfs_repos + i)%nat =
    Some (VolumeMount ("secret-" ++ format_num i) (secret_mountPath s)).
Proof.
  intros Hi job shared.
  destruct (prepare_job_closed_form job_id docker_img cmd cvmfs_repos env_vars namespace
              shared_file_system true) as [Hv Hm].
  fold job in Hv, Hm. rewrite Hv, Hm.
  assert (Hsh : forall A (x : A),
            length (if shared_file_system then [x] else []) = shared).
  { intros A x. unfold shared. by destruct shared_file_system. }
  split.
  - rewrite !app_assoc. rewrite lookup_app_r
      by (rewrite !length_app, length_imap, Hsh; lia).
    rewrite !length_app, length_imap, Hsh.
    replace (length (volumes job_template) + shared + length cvmfs_repos + i
             - (length (volumes job_template) + shared + length cvmfs_repos))%nat
      with i by lia.
    by rewrite list_lookup_imap, Hi.
  - rewrite !app_assoc. rewrite lookup_app_r
      by (rewrite !length_app, length_imap, Hsh; lia).
    rewrite !length_app, length_imap, Hsh.
    replace (length (volumeMounts (container0 job_template)) + shared
             + length cvmfs_repos + i
             - (length (volumeMounts (container0 job_template)) + shared
                + length cvmfs_repos))%nat
      with i by lia.
    by rewrite list_lookup_imap, Hi.
Qed.

End PrepareJobFacts.

(** ** Pod names and job names *)

Lemma split_nonempty c s : exists x xs, split c s = x :: xs.
Proof.
  induction s as [|a s IH]; simpl; [eauto|].
  destruct (Ascii.eqb a c); [eauto|].
  destruct IH as (x & xs & ->). eauto.
Qed.

Lemma split_app_sep c s t :
  split c (s ++ String c t) = (split c s ++ split c t)%list.
Proof.
  induction s as [|a s IH]; simpl.
  - by rewrite Ascii.eqb_refl.
  - destruct (Ascii.eqb a c); [by rewrite IH|].
    rewrite IH. by destruct (split_nonempty c s) as (x & xs & ->).
Qed.

Lemma split_no_sep c t : has_char c t = false -> split c t = [t].
Proof.
  induction t as [|a t IH]; simpl; [done|].
  destruct (Ascii.eqb a c); [done|]. simpl. intros H. by rewrite IH.
Qed.

Lemma join_cons sep x y l : join sep (x :: y :: l) = x ++ sep ++ join sep (y :: l).
Proof. reflexivity. Qed.

(** Joining what [split] returns gives the string back. *)
Lemma join_split c s : join (String c "") (split c s) = s.
Proof.
  induction s as [|a s IH]; [done|]. cbn [split].
  destruct (split_nonempty c s) as (x & xs & Hs). rewrite Hs in IH |- *.
  destruct (Ascii.eqb a c) eqn:Hac.
  - apply Ascii.eqb_eq in Hac as ->. rewrite join_cons, IH. reflexivity.
  - destruct xs as [|y ys].
    + cbn [join] in *. by rewrite IH.
    + rewrite join_cons in IH |- *. by rewrite <- IH.
Qed.

(** A pod named after its job, a dash and a dash-free suffix (the
    convention of the Kubernetes Job controller) is correlated to that
    job, whatever dashes the job name has. *)
Theorem job_name_of_pod_suffixed job suffix :
  has_char "-" suffix = false ->
  job_name_of_pod (job ++ "-" ++ suffix) = job.
Proof.
  intros Hs. unfold job_name_of_pod.
  change (job ++ "-" ++ suffix) with (job ++ String "-" suffix).
  rewrite split_app_sep, (split_no_sep _ _ Hs).
  rewrite removelast_last. apply (join_split "-").
Qed.

Lemma job_name_of_pod_suffixed_witness :
  job_name_of_pod ("1612a779-f3fa-4344-8819-3d12fa9b9d90" ++ "-" ++ "x7k2p")
  = "1612a779-f3fa-4344-8819-3d12fa9b9d90".
Proof.
  apply (job_name_of_pod_suffixed "1612a779-f3fa-4344-8819-3d12fa9b9d90" "x7k2p").
  reflexivity.
Defined.

(** A pod whose name has no dash is correlated to the empty job name,
    which the table never holds for a created job id. *)
Lemma job_name_of_pod_dashless name :
  has_char "-" name = false -> job_name_of_pod name = "".
Proof.
  intros Hs. unfold job_name_of_pod. by rewrite (split_no_sep _ _ Hs).
Qed.

(** ** Volume names do not collide *)

Lemma string_of_uint_no_dash d : has_char "-" (NilEmpty.string_of_uint d) = false.
Proof. induction d; simpl; auto. Qed.

Lemma format_num_no_dash num : has_char "-" (format_num num) = false.
Proof. apply string_of_uint_no_dash. Qed.

Lemma format_num_inj i j : format_num i = format_num j -> i = j.
Proof.
  unfold format_num. intros H.
  assert (Hu : Nat.to_uint i = Nat.to_uint j).
  { apply (f_equal NilEmpty.uint_of_string) in H.
    rewrite !NilEmpty.usu in H. by inversion H. }
  apply (f_equal Nat.of_uint) in Hu. by rewrite !Unsigned.of_to in Hu.
Qed.

Lemma suffixed_inj s1 t1 s2 t2 :
  has_char "-" t1 = false -> has_char "-" t2 = false ->
  s1 ++ "-" ++ t1 = s2 ++ "-" ++ t2 -> s1 = s2 /\ t1 = t2.
Proof.
  intros H1 H2 Heq.
  change (s1 ++ String "-" t1 = s2 ++ String "-" t2) in Heq.
  apply (f_equal (split "-")) in Heq.
  rewrite !split_app_sep, (split_no_sep _ _ H1), (split_no_sep _ _ H2) in Heq.
  apply app_inj_tail in Heq as [Hs Ht]. split; [|done].
  apply (f_equal (join "-")) in Hs. by rewrite !(join_split "-") in Hs.
Qed.

(** Whatever names the volume templates give, the index suffix keeps
    the names of two repository volumes of one manifest apart. *)
Lemma repository_volume_names_distinct (name1 name2 : string) (i j : nat) :
  i <> j ->
  name1 ++ "-" ++ format_num i <> name2 ++ "-" ++ format_num j.
Proof.
  intros Hij Heq.
  apply suffixed_inj in Heq as [_ Hf]; try apply format_num_no_dash.
  by apply format_num_inj in Hf.
Qed.

(** In a built manifest, the volumes of two different positions of the
    repository list carry different names. *)
Theorem prepare_job_repository_names_distinct
    job_template get_k8s_cephfs_volume CEPHFS_MOUNT_PATH get_k8s_cvmfs_volume
    get_cvmfs_mount_point get_k8s_secret_volumes shlex_split
    job_id docker_img cmd cvmfs_repos env_vars namespace
    shared_file_system scopesecrets i j repo_i repo_j :
  cvmfs_repos !! i = Some repo_i ->
  cvmfs_repos !! j = Some repo_j ->
  i <> j ->
  let job := prepare_job job_template get_k8s_cephfs_volume CEPHFS_MOUNT_PATH
               get_k8s_cvmfs_volume get_cvmfs_mount_point get_k8s_secret_volumes
               shlex_split job_id docker_img cmd cvmfs_repos env_vars namespace
               shared_file_system scopesecrets in
  let first := (length (volumes job_template)
                + (if shared_file_system then 1 else 0))%nat in
  exists vi vj,
    volumes job !! (first + i)%nat = Some vi /\
    volumes job !! (first + j)%nat = Some vj /\
    volume_name vi <> volume_name vj.
Proof.
  intros Hi Hj Hij job first.
  destruct (repository_volume_lookup job_template get_k8s_cephfs_volume
              CEPHFS_MOUNT_PATH get_k8s_cvmfs_volume get_cvmfs_mount_point
              get_k8s_secret_volumes shlex_split job_id docker_img cmd cvmfs_repos
              env_vars namespace shared_file_system scopesecrets i repo_i Hi)
    as (Hvi & _).
  destruct (repository_volume_lookup job_template get_k8s_cephfs_volume
              CEPHFS_MOUNT_PATH get_k8s_cvmfs_volume get_cvmfs_mount_point
              get_k8s_secret_volumes shlex_split job_id docker_img cmd cvmfs_repos
              env_vars namespace shared_file_system scopesecrets j repo_j Hj)
    as (Hvj & _).
  eexists _, _. split; [exact Hvi|]. split; [exact Hvj|].
  simpl. by apply repository_volume_names_distinct.
Qed.

Lemma prepare_job_repository_names_distinct_witness :
  let job := sample_prepare_job "job" "busybox" (Some "sleep 1000")
               ["atlas-condb"; "atlas"] [] "atlas" true false in
  let first := (length (volumes sample_template) + (if true then 1 else 0))%nat in
  exists vi vj,
    volumes job !! (first + 0)%nat = Some vi /\
    volumes job !! (first + 1)%nat = Some vj /\
    volume_name vi <> volume_name vj.
Proof.
  apply (prepare_job_repository_names_distinct sample_template sample_cephfs_volume
           "/data" sample_cvmfs_volume sample_cvmfs_mount_point sample_secret_volumes
           (split " "%char) "job" "busybox" (Some "sleep 1000")
           ["atlas-condb"; "atlas"] [] "atlas" true false 0 1 "atlas-condb" "atlas");
    [reflexivity | reflexivity | lia].
Defined.

Lemma prepare_job_repository_volume_witness :
  let job := sample_prepare_job "job" "busybox" (Some "sleep 1000")
               ["atlas-condb"; "atlas"] [] "atlas" true true in
  let shared := if true then 1%nat else 0%nat in
  let secrets := if true then sample_secret_volumes "atlas" else [] in
  volumes job !! (length (volumes sample_template) + shared + 1)%nat =
    Some (Volume (volume_name (sample_cvmfs_volume "atlas" "atlas")
                    ++ "-" ++ format_num 1)
                 (volume_rest (sample_cvmfs_volume "atlas" "atlas"))) /\
  volumeMounts (container0 job)
    !! (length (volumeMounts (container0 sample_template)) + shared + 1)%nat =
    Some (VolumeMount (volume_name (sample_cvmfs_volume "atlas" "atlas")
                         ++ "-" ++ format_num 1)
                      (sample_cvmfs_mount_point "atlas")) /\
  length (volumes job) =
    (length (volumes sample_template) + shared
     + length ["atlas-condb"; "atlas"] + length secrets)%nat /\
  length (volumeMounts (container0 job)) =
    (length (volumeMounts (container0 sample_template)) + shared
     + length ["atlas-condb"; "atlas"] + length secrets)%nat.
Proof.
  apply (prepare_job_repository_volume sample_template sample_cephfs_volume
           "/data" sample_cvmfs_volume sample_cvmfs_mount_point sample_secret_volumes
           (split " "%char) "job" "busybox" (Some "sleep 1000")
           ["atlas-condb"; "atlas"] [] "atlas" true true 1 "atlas").
  reflexivity.
Defined.

Lemma prepare_job_secret_volume_witness :
  let job := sample_prepare_job "job" "busybox" None ["atlas"] [] "atlas" false true in
  let shared := if false then 1%nat else 0%nat in
  volumes job
    !! (length (volumes sample_template) + shared + length ["atlas"] + 0)%nat =
    Some (Volume ("secret-" ++ format_num 0) {[ "secret" := VStr "token" ]}) /\
  volumeMounts (container0 job)
    !! (length (volumeMounts (container0 sample_template)) + shared
        + length ["atlas"] + 0)%nat =
    Some (VolumeMount ("secret-" ++ format_num 0) "/etc/token").
Proof.
  apply (prepare_job_secret_volume sample_template sample_cephfs_volume
           "/data" sample_cvmfs_volume sample_cvmfs_mount_point sample_secret_volumes
           (split " "%char) "job" "busybox" None ["atlas"] [] "atlas" false 0
           {| secret := VStr "token"; secret_mountPath := "/etc/token" |}).
  reflexivity.
Defined.

(** The manifest for the request of the API documentation. *)
Example prepare_job_sample :
  volumeMounts (container0
    (sample_prepare_job "job" "busybox" (Some "sleep 1000")
       ["atlas-condb"; "atlas"] [] "atlas" true false))
  = [VolumeMount "cephfs" "/data";
     VolumeMount "cvmfs-0" "/cvmfs/atlas-condb";
     VolumeMount "cvmfs-1" "/cvmfs/atlas"] /\
  command (container0
    (sample_prepare_job "job" "busybox" (Some "sleep 1000")
       ["atlas-condb"; "atlas"] [] "atlas" true false))
  = Some ["sleep"; "1000"].
Proof. split; reflexivity. Qed.

(** ** More on the pod reconciler *)

(** The pod stream covers every namespace: an event of a pod whose name
    correlates to no job of the table is handled without any effect. *)
Theorem pod_of_unknown_job_ignored v p w :
  table_ok (job_db w) ->
  job_db w !! job_name_of_pod (pod_name p) = None ->
  watch_pods_event v p w = (Ok tt, w).
Proof.
  intros Hok Hnone. apply watch_pods_event_inactive; [done|].
  intros r Hr. congruence.
Qed.

Lemma pod_of_unknown_job_ignored_witness :
  watch_pods_event Py3
    {| pod_name := "kube-dns-5d4f8"; pod_obj_status := None; pod_logs := "" |}
    (sample_world sample_record)
  = (Ok tt, sample_world sample_record).
Proof.
  apply pod_of_unknown_job_ignored.
  - apply table_ok_singleton; vm_compute; eauto.
  - vm_compute. reflexivity.
Defined.

(** The first event of a job's pod stores that pod in the record, even
    when the rest of the handler raises, and the record holds it after
    any further steps of either reconciler. *)
Theorem first_pod_event_attaches v p s r sched :
  pods_thread s = PIdle ->
  table_ok (job_db (sys_world s)) ->
  job_db (sys_world s) !! job_name_of_pod (pod_name p) = Some r ->
  get_truthy r "pod" = false ->
  exists r',
    job_db (sys_world (exec v (PodEvent p :: sched) s))
      !! job_name_of_pod (pod_name p) = Some r' /\
    r' !! "pod" = Some (VPod (pod_name p)).
Proof.
  intros Hidle Hok Hr Hno.
  set (n := job_name_of_pod (pod_name p)) in *.
  set (J := fun w' => exists r', job_db w' !! n = Some r' /\
                                r' !! "pod" = Some (VPod (pod_name p))).
  assert (Hev : J (pods_event v p (sys_world s)).2).
  { unfold pods_event.
    destruct (unended_for_pods_ok _ Hok) as (l & Hl & _).
    rewrite (bind_ok _ _ _ _ _ Hl). fold n.
    rewrite (bind_ok _ _ _ _ _ (store_pod_known p n _ r Hr)).
    set (w1 := World _ _).
    assert (H1 : J w1).
    { exists (attach p r). split; [apply lookup_insert_eq|].
      unfold attach. rewrite Hno. apply lookup_insert_eq. }
    case_bool_decide; [|exact H1].
    revert H1. generalize w1.
    apply preserves_pods_try, preserves_take_note_before_logs; [by intros|].
    intros x w' r0 (r' & Hr' & Hp) Hr0.
    rewrite Hr0 in Hr'. inversion Hr'; subst r0.
    exists (<["restart_count" := x]> r'). split; [apply lookup_insert_eq|].
    by rewrite lookup_insert_ne. }
  destruct Hev as (r1 & Hr1 & Hp1).
  change (exec v (PodEvent p :: sched) s) with (exec v sched (step v (PodEvent p) s)).
  assert (Hstep : job_db (sys_world (step v (PodEvent p) s)) !! n = Some r1).
  { simpl. rewrite Hidle. by rewrite pods_resume_world. }
  destruct (exec_upd v sched (step v (PodEvent p) s)) as (_ & Hrec & _).
  destruct (Hrec n r1 Hstep) as (r' & Hr' & Hpod & _).
  exists r'. split; [done|]. destruct Hpod as [Hpod|[Ht _]]; [congruence|].
  unfold get_truthy in Ht. rewrite Hp1 in Ht. discriminate.
Qed.

Lemma first_pod_event_attaches_witness :
  exists r',
    job_db (sys_world (exec Py3
        (PodEvent empty_statuses_pod :: [JobEvent completion_event])
        (sample_system sample_record)))
      !! job_name_of_pod (pod_name empty_statuses_pod) = Some r' /\
    r' !! "pod" = Some (VPod (pod_name empty_statuses_pod)).
Proof.
  apply (first_pod_event_attaches Py3 empty_statuses_pod
           (sample_system sample_record) sample_record [JobEvent completion_event]).
  - reflexivity.
  - apply table_ok_singleton; vm_compute; eauto.
  - vm_compute. reflexivity.
  - vm_compute. reflexivity.
Defined.

(** An event about an active job that reports restarts without calling
    for escalation (the limit is not reached, or the exit code is not
    positive) records the restart count and nothing else beside the pod
    reference; the same event delivered again leaves the table and the
    trace exactly as they are. *)
Theorem restart_count_recorded_idempotently v p w r maxr restarts exit_code :
  table_ok (job_db w) ->
  job_db w !! job_name_of_pod (pod_name p) = Some r ->
  unended_for_pods r = Ok true ->
  r !! "max_restart_count" = Some (VInt maxr) ->
  read_restarts p = Ok restarts ->
  read_exit_code p = Ok exit_code ->
  ((restarts < maxr)%Z \/ exists c, exit_code = Some c /\ (c <= 0)%Z) ->
  let w' := World (<[job_name_of_pod (pod_name p) :=
                       <["restart_count" := VInt restarts]> (attach p r)]> (job_db w))
                  (calls w) in
  watch_pods_event v p w = (Ok tt, w') /\
  watch_pods_event v p w' = (Ok tt, w').
Proof.
  intros Hok Hr Hact Hmax Hrest Hexit Hquiet.
  set (n := job_name_of_pod (pod_name p)) in *.
  assert (Hrun : forall w0 r0,
            table_ok (job_db w0) -> job_db w0 !! n = Some r0 ->
            unended_for_pods r0 = Ok true ->
            r0 !! "max_restart_count" = Some (VInt maxr) ->
            watch_pods_event v p w0 =
              (Ok tt, World (<[n := <["restart_count" := VInt restarts]> (attach p r0)]>
                               (job_db w0)) (calls w0))).
  { intros w0 r0 Hok0 Hr0 Hact0 Hmax0. unfold watch_pods_event.
    destruct (unended_for_pods_ok w0 Hok0) as (l & Hl & Hmem).
    rewrite (bind_ok _ _ _ _ _ Hl). fold n.
    rewrite (bind_ok _ _ _ _ _ (store_pod_known p n w0 r0 Hr0)).
    rewrite bool_decide_eq_true_2 by (apply Hmem; eauto).
    unfold try_except_KeyError, take_note.
    rewrite Hrest, Hexit. unfold lift at 1 2. unfold bind at 1 2.
    erewrite bind_ok by (apply db_set_ok; cbn [job_db]; apply lookup_insert_eq).
    cbn [job_db calls]. rewrite insert_insert_eq.
    erewrite bind_ok.
    2:{ eapply db_field_ok; [cbn [job_db]; apply lookup_insert_eq|].
        rewrite lookup_insert_ne by done. rewrite attach_other by done. exact Hmax0. }
    unfold int_ge, lift, bind at 1.
    destruct (maxr <=? restarts)%Z eqn:Hle.
    - destruct Hquiet as [Hlt|(c & -> & Hc)]; [apply Z.leb_le in Hle; lia|].
      unfold exit_code_gt_0, bind at 1.
      by rewrite (proj2 (Z.ltb_ge 0 c) Hc).
    - by unfold bind at 1, ret at 1. }
  split; [by apply Hrun|].
  set (r1 := <["restart_count" := VInt restarts]> (attach p r)).
  rewrite (Hrun _ r1).
  - cbn [job_db calls]. rewrite insert_insert_eq. do 3 f_equal.
    assert (Ha : attach p r1 = r1).
    { unfold attach. assert (Ht : get_truthy r1 "pod" = true).
      { unfold get_truthy, r1. rewrite lookup_insert_ne by done. apply attach_truthy. }
      by rewrite Ht. }
    rewrite Ha. unfold r1. by rewrite insert_insert_eq.
  - eapply upd_table_ok; [|exact Hok].
    pose proof (watch_pods_event_upd v p w) as Hu.
    by rewrite (Hrun w r Hok Hr Hact Hmax) in Hu.
  - cbn [job_db]. apply lookup_insert_eq.
  - unfold unended_for_pods, r1 in *. rewrite !lookup_insert_ne by done.
    by rewrite !attach_other by done.
  - unfold r1. rewrite lookup_insert_ne by done. by rewrite attach_other.
Qed.

Lemma restart_count_recorded_idempotently_witness :
  let w' := World (<[job_name_of_pod (pod_name running_pod) :=
                       <["restart_count" := VInt 0]> (attach running_pod sample_record)]>
                     (job_db (sample_world sample_record)))
                  (calls (sample_world sample_record)) in
  watch_pods_event Py3 running_pod (sample_world sample_record) = (Ok tt, w') /\
  watch_pods_event Py3 running_pod w' = (Ok tt, w').
Proof.
  apply (restart_count_recorded_idempotently Py3 running_pod
           (sample_world sample_record) sample_record 3 0 None).
  - apply table_ok_singleton; vm_compute; eauto.
  - vm_compute. reflexivity.
  - vm_compute. reflexivity.
  - vm_compute. reflexivity.
  - reflexivity.
  - reflexivity.
  - left. lia.
Defined.

(** [except KeyError] does not cover an empty [containerStatuses] list:
    for an active job the subscript [[0]] raises [IndexError], which ends
    [watch_pods]; the events that follow in the stream are not handled. *)
Theorem empty_container_statuses_end_watch_pods v p w r rest :
  table_ok (job_db w) ->
  job_db w !! job_name_of_pod (pod_name p) = Some r ->
  unended_for_pods r = Ok true ->
  pod_obj_status p = Some {| containerStatuses := Some [] |} ->
  watch_pods v (p :: rest) w =
    (Raise IndexError,
     World (<[job_name_of_pod (pod_name p) := attach p r]> (job_db w)) (calls w)).
Proof.
  intros Hok Hr Hact Hst. simpl.
  apply bind_raise. unfold watch_pods_event.
  destruct (unended_for_pods_ok w Hok) as (l & Hl & Hmem).
  rewrite (bind_ok _ _ _ _ _ Hl).
  rewrite (bind_ok _ _ _ _ _ (store_pod_known p _ w r Hr)).
  rewrite bool_decide_eq_true_2 by (apply Hmem; eauto).
  unfold try_except_KeyError, take_note, read_restarts, first_container_status.
  rewrite Hst. reflexivity.
Qed.

Lemma empty_container_statuses_end_watch_pods_witness :
  watch_pods Py2 (empty_statuses_pod :: [crashed_pod]) (sample_world sample_record) =
    (Raise IndexError,
     World (<[job_name_of_pod (pod_name empty_statuses_pod) :=
                attach empty_statuses_pod sample_record]>
              (job_db (sample_world sample_record)))
           (calls (sample_world sample_record))).
Proof.
  apply (empty_container_statuses_end_watch_pods Py2 empty_statuses_pod
           (sample_world sample_record) sample_record [crashed_pod]).
  - apply table_ok_singleton; vm_compute; eauto.
  - vm_compute. reflexivity.
  - vm_compute. reflexivity.
  - reflexivity.
Defined.

(** A container that has reached the restart limit but reports no
    [terminated] state (it is waiting to be restarted) makes the handler
    compare [None > 0].  Python 2 answers [False] and the event is
    skipped after the count was recorded; Python 3 raises [TypeError],
    which [except KeyError] lets through, so [watch_pods] ends. *)
Theorem limit_reached_without_exit_code p w r maxr restarts rest :
  table_ok (job_db w) ->
  job_db w !! job_name_of_pod (pod_name p) = Some r ->
  unended_for_pods r = Ok true ->
  r !! "max_restart_count" = Some (VInt maxr) ->
  read_restarts p = Ok restarts ->
  read_exit_code p = Ok None ->
  (maxr <= restarts)%Z ->
  let w' := World (<[job_name_of_pod (pod_name p) :=
                       <["restart_count" := VInt restarts]> (attach p r)]> (job_db w))
                  (calls w) in
  watch_pods Py3 (p :: rest) w = (Raise TypeError, w') /\
  watch_pods Py2 (p :: rest) w = watch_pods Py2 rest w'.
Proof.
  intros Hok Hr Hact Hmax Hrest Hexit Hge.
  set (n := job_name_of_pod (pod_name p)) in *.
  assert (Hrun : forall v,
            watch_pods_event v p w =
              (match v with Py2 => Ok tt | Py3 => Raise TypeError end,
               World (<[n := <["restart_count" := VInt restarts]> (attach p r)]>
                        (job_db w)) (calls w))).
  { intros v. unfold watch_pods_event.
    destruct (unended_for_pods_ok w Hok) as (l & Hl & Hmem).
    rewrite (bind_ok _ _ _ _ _ Hl). fold n.
    rewrite (bind_ok _ _ _ _ _ (store_pod_known p n w r Hr)).
    rewrite bool_decide_eq_true_2 by (apply Hmem; eauto).
    unfold try_except_KeyError, take_note.
    rewrite Hrest, Hexit. unfold lift at 1 2. unfold bind at 1 2.
    erewrite bind_ok by (apply db_set_ok; cbn [job_db]; apply lookup_insert_eq).
    cbn [job_db calls]. rewrite insert_insert_eq.
    erewrite bind_ok.
    2:{ eapply db_field_ok; [cbn [job_db]; apply lookup_insert_eq|].
        rewrite lookup_insert_ne by done. rewrite attach_other by done. exact Hmax. }
    unfold int_ge, lift, bind at 1.
    rewrite (proj2 (Z.leb_le maxr restarts) Hge).
    unfold exit_code_gt_0. by destruct v. }
  split; simpl.
  - apply bind_raise. apply (Hrun Py3).
  - by rewrite (bind_ok _ _ _ _ _ (Hrun Py2)).
Qed.

Lemma limit_reached_without_exit_code_witness :
  let w' := World (<[job_name_of_pod (pod_name backoff_pod) :=
                       <["restart_count" := VInt 3]> (attach backoff_pod sample_record)]>
                     (job_db (sample_world sample_record)))
                  (calls (sample_world sample_record)) in
  watch_pods Py3 (backoff_pod :: [crashed_pod]) (sample_world sample_record)
    = (Raise TypeError, w') /\
  watch_pods Py2 (backoff_pod :: [crashed_pod]) (sample_world sample_record)
    = watch_pods Py2 [crashed_pod] w'.
Proof.
  apply (limit_reached_without_exit_code backoff_pod (sample_world sample_record)
           sample_record 3 3 [crashed_pod]).
  - apply table_ok_singleton; vm_compute; eauto.
  - vm_compute. reflexivity.
  - vm_compute. reflexivity.
  - vm_compute. reflexivity.
  - reflexivity.
  - reflexivity.
  - lia.
Defined.

(** ** More on the workload reconciler *)

Lemma watch_jobs_event_completed e w r :
  table_ok (job_db w) ->
  job_db w !! job_name e = Some r ->
  unended_for_jobs r = Ok true ->
  String.eqb (event_type e) "DELETED" = false ->
  status_get_truthy e succeeded = Ok true ->
  watch_jobs_event e w =
    (Ok JIdle, World (<[job_name e := <["status" := VStr "succeeded"]> r]> (job_db w))
                     (calls w ++ [JobDelete (job_name e)])).
Proof.
  intros Hok Hr Hu Ht Hs. unfold watch_jobs_event.
  destruct (unended_for_jobs_ok w Hok) as (l & Hl & Hmem).
  rewrite (bind_ok _ _ _ _ _ Hl).
  rewrite bool_decide_eq_true_2 by (apply Hmem; eauto).
  rewrite Ht, Hs. cbn [andb]. unfold lift, bind at 1.
  by erewrite bind_ok by (by apply db_set_ok).
Qed.

(** The normal end of a job.  From an idle reconciler and a record that
    is not tombstoned and holds its pod: the completion event sets the
    status and asks the backend to delete the workload; the deletion
    confirmation that follows waits for a negative [job.exists()], then
    deletes the pod and, when that call returns, tombstones the record.
    The backend sees exactly these three calls, in this order. *)
Theorem completion_then_deletion v s r p done gone b :
  jobs_thread s = JIdle ->
  table_ok (job_db (sys_world s)) ->
  job_db (sys_world s) !! job_name done = Some r ->
  unended_for_jobs r = Ok true ->
  r !! "pod" = Some (VPod p) ->
  String.eqb (event_type done) "DELETED" = false ->
  status_get_truthy done succeeded = Ok true ->
  event_type gone = "DELETED" ->
  job_name gone = job_name done ->
  exec v [JobEvent done; JobEvent gone; JobPoll b; JobPoll false; JobReturn] s =
    System (World (<[job_name done :=
                       <["deleted" := VBool true]>
                         (<["status" := VStr "succeeded"]> r)]> (job_db (sys_world s)))
                  (calls (sys_world s)
                     ++ [JobDelete (job_name done); JobExists (job_name done) false;
                         PodDelete p]))
           JIdle (pods_thread s).
Proof.
  intros Hidle Hok Hr Hu Hp Hdone Hsucc Hgone Hname.
  set (n := job_name done) in *.
  destruct s as [w pc pt]. simpl in Hidle, Hok, Hr. subst pc.
  cbn [exec fold_left]. 
  assert (H1 : step v (JobEvent done) (System w JIdle pt) =
            System (World (<[n := <["status" := VStr "succeeded"]> r]> (job_db w))
                          (calls w ++ [JobDelete n])) JIdle pt).
  { cbn [step jobs_thread sys_world].
    by rewrite (watch_jobs_event_completed done w r Hok Hr Hu Hdone Hsucc). }
  rewrite H1. clear H1.
  set (r1 := <["status" := VStr "succeeded"]> r).
  set (w1 := World (<[n := r1]> (job_db w)) (calls w ++ [JobDelete n])).
  assert (Hok1 : table_ok (job_db w1)).
  { eapply upd_table_ok; [|exact Hok].
    pose proof (watch_jobs_event_upd done w) as Hupd.
    by rewrite (watch_jobs_event_completed done w r Hok Hr Hu Hdone Hsucc) in Hupd. }
  assert (Hr1 : job_db w1 !! job_name gone = Some r1).
  { rewrite Hname. apply lookup_insert_eq. }
  assert (Hu1 : unended_for_jobs r1 = Ok true).
  { unfold unended_for_jobs, r1 in *. by rewrite lookup_insert_ne. }
  assert (H2 : step v (JobEvent gone) (System w1 JIdle pt) = System w1 (JWaitPod n) pt).
  { cbn [step jobs_thread sys_world].
    rewrite (watch_jobs_event_deleted gone w1 r1 Hok1 Hr1 Hu1 Hgone).
    by rewrite Hname. }
  rewrite H2. clear H2.
  rewrite Hname in Hr1.
  assert (Hp1 : r1 !! "pod" = Some (VPod p)).
  { unfold r1. by rewrite lookup_insert_ne. }
  cbn [step jobs_thread sys_world].
  rewrite (wait_pod_poll_ok n w1 r1 Hr1).
  assert (Ht : get_truthy r1 "pod" = true) by (unfold get_truthy; by rewrite Hp1).
  rewrite Ht. cbn [jobs_resume pods_thread step jobs_thread sys_world].
  rewrite (wait_gone_poll_false n w1 r1 p Hr1 Hp1).
  cbn [jobs_resume pods_thread step jobs_thread sys_world].
  rewrite (tombstone_ok n _ r1); [|exact Hr1].
  cbn [jobs_resume pods_thread]. unfold w1. cbn [job_db calls].
  rewrite insert_insert_eq. by rewrite <- app_assoc.
Qed.

Lemma completion_then_deletion_witness :
  exec Py3 [JobEvent completion_event; JobEvent deletion_event; JobPoll true;
            JobPoll false; JobReturn]
       (sample_system (<["pod" := VPod "job-x7k2p"]> sample_record)) =
    System (World (<[job_name completion_event :=
                       <["deleted" := VBool true]>
                         (<["status" := VStr "succeeded"]>
                            (<["pod" := VPod "job-x7k2p"]> sample_record))]>
                     (job_db (sys_world
                        (sample_system (<["pod" := VPod "job-x7k2p"]> sample_record)))))
                  (calls (sys_world
                     (sample_system (<["pod" := VPod "job-x7k2p"]> sample_record)))
                     ++ [JobDelete (job_name completion_event);
                         JobExists (job_name completion_event) false;
                         PodDelete "job-x7k2p"]))
           JIdle
           (pods_thread (sample_system (<["pod" := VPod "job-x7k2p"]> sample_record))).
Proof.
  apply (completion_then_deletion Py3
           (sample_system (<["pod" := VPod "job-x7k2p"]> sample_record))
           (<["pod" := VPod "job-x7k2p"]> sample_record) "job-x7k2p"
           completion_event deletion_event true).
  - reflexivity.
  - apply table_ok_singleton; vm_compute; eauto.
  - vm_compute. reflexivity.
  - vm_compute. reflexivity.
  - vm_compute. reflexivity.
  - reflexivity.
  - reflexivity.
  - reflexivity.
  - reflexivity.
Defined.

(** [watch_jobs] has no [try]: an event about a job that is not
    tombstoned whose object carries no ['status'] raises [KeyError] out
    of the loop.  The table and the trace stay as they are, and no later
    workload event, poll or return is handled. *)
Theorem job_event_without_status_ends_watch_jobs v s e r later :
  jobs_thread s = JIdle ->
  table_ok (job_db (sys_world s)) ->
  job_db (sys_world s) !! job_name e = Some r ->
  unended_for_jobs r = Ok true ->
  String.eqb (event_type e) "DELETED" = false ->
  job_obj_status e = None ->
  Forall (fun a => (forall p, a <> PodEvent p) /\ a <> PodReturn) later ->
  exec v (JobEvent e :: later) s =
    System (sys_world s) (JDead KeyError) (pods_thread s).
Proof.
  intros Hidle Hok Hr Hu Ht Hst Hlater.
  destruct s as [w pc pt]. simpl in Hidle, Hok, Hr. subst pc.
  cbn [exec fold_left step jobs_thread sys_world].
  assert (Hev : watch_jobs_event e w = (Raise KeyError, w)).
  { unfold watch_jobs_event.
    destruct (unended_for_jobs_ok w Hok) as (l & Hl & Hmem).
    rewrite (bind_ok _ _ _ _ _ Hl).
    rewrite bool_decide_eq_true_2 by (apply Hmem; eauto).
    rewrite Ht. cbn [andb]. unfold status_get_truthy. by rewrite Hst. }
  rewrite Hev. cbn [jobs_resume pods_thread sys_world].
  induction Hlater as [|a later [Ha Hb] _ IH]; [done|].
  cbn [fold_left].
  destruct a as [p| |e'|b'| ]; [by destruct (Ha p)|done|exact IH|exact IH|exact IH].
Qed.

Lemma job_event_without_status_ends_watch_jobs_witness :
  exec Py3
    (JobEvent {| event_type := "ADDED"; job_name := "job";
                 job_obj_status := None; job_subscriptable := false |}
     :: [JobEvent completion_event; JobPoll false])
    (sample_system sample_record) =
  System (sys_world (sample_system sample_record)) (JDead KeyError)
         (pods_thread (sample_system sample_record)).
Proof.
  apply (job_event_without_status_ends_watch_jobs Py3 (sample_system sample_record)
           {| event_type := "ADDED"; job_name := "job";
              job_obj_status := None; job_subscriptable := false |}
           sample_record [JobEvent completion_event; JobPoll false]).
  - reflexivity.
  - apply table_ok_singleton; vm_compute; eauto.
  - vm_compute. reflexivity.
  - vm_compute. reflexivity.
  - reflexivity.
  - reflexivity.
  - repeat constructor; try discriminate; intros p; discriminate.
Defined.

(** An explicit failure reported by the backend: when the handle
    accepts the subscript, the record is set to ['failed'] and the
    workload is deleted; when it does not, the statement raises
    [TypeError] before anything is written or called, and the loop
    ends. *)
Theorem workload_failure_event v s e r :
  jobs_thread s = JIdle ->
  table_ok (job_db (sys_world s)) ->
  job_db (sys_world s) !! job_name e = Some r ->
  unended_for_jobs r = Ok true ->
  String.eqb (event_type e) "DELETED" = false ->
  status_get_truthy e succeeded = Ok false ->
  status_get_truthy e failed = Ok true ->
  step v (JobEvent e) s =
    if job_subscriptable e
    then System (World (<[job_name e := <["status" := VStr "failed"]> r]>
                          (job_db (sys_world s)))
                       (calls (sys_world s) ++ [JobDelete (job_name e)]))
                JIdle (pods_thread s)
    else System (sys_world s) (JDead TypeError) (pods_thread s).
Proof.
  intros Hidle Hok Hr Hu Ht Hsucc Hfail.
  destruct s as [w pc pt]. simpl in Hidle, Hok, Hr. subst pc.
  cbn [step jobs_thread sys_world]. unfold watch_jobs_event.
  destruct (unended_for_jobs_ok w Hok) as (l & Hl & Hmem).
  rewrite (bind_ok _ _ _ _ _ Hl).
  rewrite bool_decide_eq_true_2 by (apply Hmem; eauto).
  rewrite Ht, Hsucc, Hfail. cbn [andb]. unfold lift at 1 2, bind at 1 2.
  unfold job_item_name. destruct (job_subscriptable e).
  - unfold lift, bind at 1. unfold bind at 1.
    rewrite (bind_ok _ _ _ _ _ (db_set_ok _ "status" (VStr "failed") w r Hr)).
    reflexivity.
  - reflexivity.
Qed.

Lemma workload_failure_event_witness :
  step Py3
    (JobEvent {| event_type := "MODIFIED"; job_name := "job";
                 job_obj_status := Some {| succeeded := None; failed := Some 1%Z |};
                 job_subscriptable := false |})
    (sample_system sample_record) =
  if job_subscriptable
       {| event_type := "MODIFIED"; job_name := "job";
          job_obj_status := Some {| succeeded := None; failed := Some 1%Z |};
          job_subscriptable := false |}
  then System (World (<["job" := <["status" := VStr "failed"]> sample_record]>
                        (job_db (sys_world (sample_system sample_record))))
                     (calls (sys_world (sample_system sample_record))
                        ++ [JobDelete "job"]))
              JIdle (pods_thread (sample_system sample_record))
  else System (sys_world (sample_system sample_record)) (JDead TypeError)
              (pods_thread (sample_system sample_record)).
Proof.
  apply (workload_failure_event Py3 (sample_system sample_record)
           {| event_type := "MODIFIED"; job_name := "job";
              job_obj_status := Some {| succeeded := None; failed := Some 1%Z |};
              job_subscriptable := false |} sample_record).
  - reflexivity.
  - apply table_ok_singleton; vm_compute; eauto.
  - vm_compute. reflexivity.
  - vm_compute. reflexivity.
  - reflexivity.
  - reflexivity.
  - reflexivity.
Defined.

(** ** What the reconcilers never do *)

(** However many pod events [watch_pods] handles, and whether or not it
    ends with an exception, it sets no tombstone; and as long as no
    record keeps a pod handle as its workload handle, it deletes no
    pod. *)
Theorem watch_pods_never_tombstones v stream w :
  obj_ok (job_db w) ->
  same_deleted w (watch_pods v stream w).2 /\
  pod_deletes (calls (watch_pods v stream w).2) = pod_deletes (calls w).
Proof.
  revert w. induction stream as [|p stream IH]; intros w Hobj.
  - split; [apply same_deleted_refl | done].
  - simpl. unfold bind.
    pose proof (watch_pods_event_same_deleted v p w) as Hsame.
    pose proof (watch_pods_event_no_pod_delete v p w Hobj) as [Hobj' Hdel].
    destruct (watch_pods_event v p w) as [[[]|e] w']; simpl in *; [|done].
    destruct (IH w' Hobj') as [Hs Hd]. split.
    + by eapply same_deleted_trans.
    + congruence.
Qed.

Lemma watch_pods_never_tombstones_witness :
  same_deleted (sample_world sample_record)
    (watch_pods Py3 [running_pod; crashed_pod; backoff_pod]
       (sample_world sample_record)).2 /\
  pod_deletes (calls (watch_pods Py3 [running_pod; crashed_pod; backoff_pod]
                        (sample_world sample_record)).2)
    = pod_deletes (calls (sample_world sample_record)).
Proof.
  apply (watch_pods_never_tombstones Py3 [running_pod; crashed_pod; backoff_pod]
           (sample_world sample_record)).
  apply (obj_ok_singleton _ _ "job"). vm_compute. reflexivity.
Defined.

(** No reconciler step adds a record to the table or removes one:
    deletion only ever sets the tombstone. *)
Theorem records_never_removed v sched s n :
  is_Some (job_db (sys_world (exec v sched s)) !! n)
  <-> is_Some (job_db (sys_world s) !! n).
Proof.
  destruct (exec_upd v sched s) as (Hnone & Hrec & _). split.
  - intros [r' Hr']. destruct (job_db (sys_world s) !! n) eqn:Hn; [eauto|].
    rewrite (Hnone n Hn) in Hr'. discriminate.
  - intros [r Hr]. destruct (Hrec n r Hr) as (r' & Hr' & _). eauto.
Qed.

(** ** Requests and reconcilers together *)

Lemma upd_views_ok w w' : upd w w' -> views_ok (job_db w) -> views_ok (job_db w').
Proof.
  intros (Hnone & Hrec & _) Hok n r' Hr'.
  destruct (job_db w !! n) as [r|] eqn:Hr.
  - destruct (Hrec n r Hr) as (r1 & Hr1 & _ & Ho & _ & Hd).
    rewrite Hr' in Hr1. inversion Hr1; subst r1.
    destruct (Hok n r Hr) as [Hobj Hdel]. split.
    + by rewrite Ho.
    + destruct Hd as [->| ->]; eauto.
  - rewrite (Hnone n Hr) in Hr'. discriminate.
Qed.

Lemma new_record_keys body job_id job_obj :
  is_Some (new_record body job_id job_obj !! "obj") /\
  is_Some (new_record body job_id job_obj !! "deleted") /\
  is_Some (new_record body job_id job_obj !! "status").
Proof.
  unfold new_record. repeat split.
  - rewrite lookup_insert_ne by done. rewrite lookup_insert_eq. eauto.
  - rewrite lookup_insert_eq. eauto.
  - rewrite !lookup_insert_ne by done. rewrite lookup_insert_eq. eauto.
Qed.

Lemma create_job_keeps_tables_ok inst request_json job_id w :
  views_ok (job_db w) /\ table_ok (job_db w) ->
  views_ok (job_db (create_job inst request_json job_id w).2) /\
  table_ok (job_db (create_job inst request_json job_id w).2).
Proof.
  intros [Hv Ht].
  assert (Hins : forall body job_obj,
            views_ok (<[job_id := new_record body job_id job_obj]> (job_db w)) /\
            table_ok (<[job_id := new_record body job_id job_obj]> (job_db w))).
  { intros body job_obj.
    destruct (new_record_keys body job_id job_obj) as (Ho & Hd & Hs).
    split; intros n r Hr; destruct (decide (job_id = n)) as [->|Hne].
    - rewrite lookup_insert_eq in Hr. by inversion Hr; subst r.
    - rewrite lookup_insert_ne in Hr by done. by eapply Hv.
    - rewrite lookup_insert_eq in Hr. by inversion Hr; subst r.
    - rewrite lookup_insert_ne in Hr by done. by eapply Ht. }
  destruct request_json as [body|]; [|done].
  destruct (body !! "experiment") as [experiment|] eqn:He.
  2:{ rewrite create_job_missing; [done|]. by left. }
  destruct (body !! "docker-img") as [docker_img|] eqn:Hd.
  2:{ rewrite create_job_missing; [done|]. by right. }
  rewrite (create_job_present inst body job_id w experiment docker_img He Hd).
  destruct (instantiate_job_call inst body job_id docker_img experiment) as [x|e];
    [|done].
  destruct (truthy x); [apply Hins | done].
Qed.

(** Whatever requests were answered and whatever the reconcilers did
    since the controller started, every record still has the keys the
    views delete and the reconcilers read: [GET /jobs] answers 200, and
    [GET /jobs/<id>] answers 200 for an id of the table and 404 for any
    other. *)
Theorem views_always_served v ops job_id :
  let db := job_db (sys_world (fold_left (perform v) ops initial_system)) in
  http_status (get_jobs db) = 200 /\
  http_status (get_job db job_id)
    = match db !! job_id with Some _ => 200 | None => 404 end /\
  views_ok db /\ table_ok db.
Proof.
  intros db.
  assert (Hinv : views_ok db /\ table_ok db).
  { subst db.
    assert (H0 : views_ok (job_db (sys_world initial_system)) /\
                 table_ok (job_db (sys_world initial_system))).
    { split; intros n r Hr; simpl in Hr; by rewrite lookup_empty in Hr. }
    revert H0. generalize initial_system.
    induction ops as [|op ops IH]; intros s Hs; [done|].
    simpl. apply IH. destruct op as [inst rj id|a]; simpl.
    - by apply create_job_keeps_tables_ok.
    - destruct Hs as [Hv Ht]. split.
      + eapply upd_views_ok; [apply step_upd | done].
      + eapply upd_table_ok; [apply step_upd | done]. }
  destruct Hinv as [Hv Ht]. split; [|split; [|done]].
  - unfold get_jobs. destruct (filter_jobs_total db Hv) as [view ->]. done.
  - unfold get_job. destruct (db !! job_id) as [r|] eqn:Hr; [|done].
    destruct (Hv job_id r Hr) as [Ho Hd].
    by destruct (strip_record_total r Ho Hd) as [job ->].
Qed.

(** A job that was just created reads back as started, with no restart
    and a limit of three, whatever the request said about those fields;
    the fields of the request that [create_job] does not assign (the
    repository list, say) come back as sent. *)
Theorem created_job_reads_back inst body job_id w resp :
  (create_job inst (Some body) job_id w).1 = Ok resp ->
  status_code resp = 201 ->
  exists job,
    get_job (job_db (create_job inst (Some body) job_id w).2) job_id =
      Ok (Response 200 (VDict {[ "job" := VDict job ]})) /\
    job !! "job-id" = Some (VStr job_id) /\
    job !! "status" = Some (VStr "started") /\
    job !! "restart_count" = Some (VInt 0) /\
    job !! "max_restart_count" = Some (VInt 3) /\
    forall k, k ∉ assigned_by_create -> k <> "pod" -> job !! k = body !! k.
Proof.
  intros Hresp Hcode.
  destruct (body !! "experiment") as [experiment|] eqn:He.
  2:{ rewrite create_job_missing in Hresp; [discriminate|]. by left. }
  destruct (body !! "docker-img") as [docker_img|] eqn:Hd.
  2:{ rewrite create_job_missing in Hresp; [discriminate|]. by right. }
  rewrite (create_job_present inst body job_id w experiment docker_img He Hd)
    in Hresp |- *.
  destruct (instantiate_job_call inst body job_id docker_img experiment)
    as [x|e]; [|discriminate].
  destruct (truthy x).
  2:{ simpl in Hresp. inversion Hresp; subst resp. discriminate. }
  cbn [snd job_db]. unfold get_job. rewrite lookup_insert_eq.
  destruct (new_record_keys body job_id x) as (Ho & Hdel & _).
  destruct (strip_record_total _ Ho Hdel) as [job Hs]. rewrite Hs.
  exists job. split; [done|].
  assert (Hkeep : forall k, k <> "obj" -> k <> "deleted" -> k <> "pod" ->
            job !! k = new_record body job_id x !! k).
  { intros k H1 H2 H3. apply (strip_record_keeps _ _ k Hs).
    unfold stripped_by_views. rewrite !elem_of_cons, elem_of_nil.
    intros [?|[?|[?|[]]]]; done. }
  repeat split.
  - rewrite Hkeep by done. unfold new_record.
    rewrite !lookup_insert_ne by done. apply lookup_insert_eq.
  - rewrite Hkeep by done. unfold new_record.
    rewrite !lookup_insert_ne by done. apply lookup_insert_eq.
  - rewrite Hkeep by done. unfold new_record.
    rewrite !lookup_insert_ne by done. apply lookup_insert_eq.
  - rewrite Hkeep by done. unfold new_record.
    rewrite !lookup_insert_ne by done. apply lookup_insert_eq.
  - intros k Hk Hpod. rewrite Hkeep; [by apply new_record_keeps | | | done];
      intros ->; apply Hk; unfold assigned_by_create; repeat constructor.
Qed.

Lemma created_job_reads_back_witness :
  exists job,
    get_job (job_db (create_job accepting
                       (Some (<["cvmfs_mounts" := VList [VStr "atlas-condb"; VStr "atlas"]]>
                                (<["status" := VStr "failed"]> sample_body)))
                       "job" (World ∅ [])).2) "job" =
      Ok (Response 200 (VDict {[ "job" := VDict job ]})) /\
    job !! "job-id" = Some (VStr "job") /\
    job !! "status" = Some (VStr "started") /\
    job !! "restart_count" = Some (VInt 0) /\
    job !! "max_restart_count" = Some (VInt 3) /\
    forall k, k ∉ assigned_by_create -> k <> "pod" ->
      job !! k = (<["cvmfs_mounts" := VList [VStr "atlas-condb"; VStr "atlas"]]>
                    (<["status" := VStr "failed"]> sample_body)) !! k.
Proof.
  apply (created_job_reads_back accepting
           (<["cvmfs_mounts" := VList [VStr "atlas-condb"; VStr "atlas"]]>
              (<["status" := VStr "failed"]> sample_body))
           "job" (World ∅ [])
           (Response 201 (VDict {[ "job-id" := VStr "job" ]}))).
  - vm_compute. reflexivity.
  - reflexivity.
Defined.

Lemma create_job_as_imported_witness :
  create_job instantiate_job_as_imported (Some sample_body) "job" (World ∅ [])
    = (Raise TypeError, World ∅ []) /\
  http_status (create_job instantiate_job_as_imported (Some sample_body) "job"
                 (World ∅ [])).1 = 500.
Proof.
  apply (create_job_as_imported sample_body "job" (World ∅ [])
           (VStr "atlas") (VStr "busybox")); vm_compute; reflexivity.
Defined.
